(** * Book management service (FastAPI + SQLAlchemy): model and properties

    Shallow embedding of [main.py].  The file follows the source top to
    bottom: the [books] table declared by [class Book], the request-scoped
    session of [get_db], the pydantic schemas [BookCreate] and [BookOut], and
    the five route handlers.  The relational engine and the schema library
    are external to the source; what the handlers rely on is modelled in
    [books] (the table with its declared constraints), [Session] (the unit
    of work of the ORM) and [FieldValidators] (coercion of one JSON value to
    a declared field type). *)

From Stdlib Require Import ZArith List String Ascii Bool Lia DecimalString.
From Stdlib Require DecimalPos.
Import ListNotations.

Local Open Scope string_scope.
Local Open Scope list_scope.
Local Open Scope Z_scope.

Set Warnings "-register-all".

(** ** Pydantic schemas *)

(** [class BookCreate(BaseModel)]: the validated input shape. *)
Module BookCreate.
Record t : Type := Build {
    title : string;
    author : string;
    published_year : Z;
    genre : string;
    isbn : string
  }.
End BookCreate.

(** [class BookOut(BookCreate)]: the input shape plus [id: int]. *)
Module BookOut.
Record t : Type := Build {
    title : string;
    author : string;
    published_year : Z;
    genre : string;
    isbn : string;
    id : Z
  }.
End BookOut.

(** ** The ORM class [Book] *)

(** An instance of [class Book(Base)].  A freshly constructed instance has
    [id = None]; the primary key is filled in when the INSERT is flushed. *)
Module Book.
Record t : Type := Build {
    id : option Z;
    title : string;
    author : string;
    published_year : Z;
    genre : string;
    isbn : string
  }.

(** [Book(title=..., author=..., published_year=..., genre=..., isbn=...)] *)
Definition init (title author : string) (published_year : Z)
      (genre isbn : string) : t :=
    Build None title author published_year genre isbn.

Definition set_id (v : option Z) (b : t) : t :=
    Build v (title b) (author b) (published_year b) (genre b) (isbn b).
Definition set_title (v : string) (b : t) : t :=
    Build (id b) v (author b) (published_year b) (genre b) (isbn b).
Definition set_author (v : string) (b : t) : t :=
    Build (id b) (title b) v (published_year b) (genre b) (isbn b).
Definition set_published_year (v : Z) (b : t) : t :=
    Build (id b) (title b) (author b) v (genre b) (isbn b).
Definition set_genre (v : string) (b : t) : t :=
    Build (id b) (title b) (author b) (published_year b) v (isbn b).
Definition set_isbn (v : string) (b : t) : t :=
    Build (id b) (title b) (author b) (published_year b) (genre b) v.
End Book.

(** Exceptions that can leave a handler. *)
Inductive error_type : Type :=
| missing          (* a required field is absent *)
| type_error       (* the value cannot be read as the declared type *)
| not_a_dict.      (* the body is not a JSON object *)

Inductive exn : Type :=
| HTTPException (status_code : Z) (detail : string)
| RequestValidationError (errors : list (string * error_type))
| ResponseValidationError
| IntegrityError       (* a PRIMARY KEY or UNIQUE constraint is violated *)
| DataError            (* a value does not fit its column *)
| InvalidRequestError. (* refresh of an instance that has no row *)

(** ** The [books] table *)

(** The collation of the [isbn] column decides when two values are the same
    key of its UNIQUE index.  It belongs to the database, not to the source;
    all that is used is that it is reflexive and symmetric. *)
Class Collation : Type := {
  same_key : string -> string -> bool;
  same_key_refl : forall s, same_key s s = true;
  same_key_sym : forall s s', same_key s s' = same_key s' s
}.

Module books.
(** One row: [id] INTEGER PRIMARY KEY, [title] VARCHAR(255), [author]
      VARCHAR(255), [published_year] INTEGER, [genre] VARCHAR(100), [isbn]
      VARCHAR(13) UNIQUE; every column NOT NULL. *)
Record row : Type := Row {
    id : Z;
    title : string;
    author : string;
    published_year : Z;
    genre : string;
    isbn : string
  }.

(** The table in storage order, and the AUTO_INCREMENT counter of [id]. *)
Record t : Type := Build {
    rows : list row;
    auto_increment : Z
  }.

Definition empty : t := Build [] 1.

Definition in_integer_range (n : Z) : bool :=
    (-2147483648 <=? n) && (n <=? 2147483647).

Definition String_fits (n : nat) (s : string) : bool :=
    Nat.leb (String.length s) n.

(** The values of an instance fit the declared column types. *)
Definition fits (b : Book.t) : bool :=
    String_fits 255 (Book.title b) && String_fits 255 (Book.author b)
    && in_integer_range (Book.published_year b)
    && String_fits 100 (Book.genre b) && String_fits 13 (Book.isbn b).

Definition has_id (k : Z) (r : row) : bool := id r =? k.

Definition with_values (k : Z) (b : Book.t) : row :=
    Row k (Book.title b) (Book.author b) (Book.published_year b)
      (Book.genre b) (Book.isbn b).

(** [SELECT ... FROM books WHERE id = k LIMIT 1] *)
Definition select_by_id (tbl : t) (k : Z) : option row :=
    find (has_id k) (rows tbl).

Section Statements.
Context {collation : Collation}.

(** Some row other than row [k] holds the key [s] of the UNIQUE index. *)
Definition isbn_taken (tbl : t) (k : Z) (s : string) : bool :=
      existsb (fun r => negb (has_id k r) && same_key s (isbn r)) (rows tbl).

(** [INSERT INTO books (...) VALUES (...)]: the result is the primary
        key of the new row.  An instance without [id] takes the counter.
        The key is a value of the INTEGER column [id]: one outside the
        range of the column is refused like any value that does not fit,
        so an exhausted counter makes the INSERT fail. *)
Definition insert (tbl : t) (b : Book.t) : exn + Z * t :=
      let k := match Book.id b with Some k => k | None => auto_increment tbl end in
      if negb (fits b) || negb (in_integer_range k) then inl DataError
      else if existsb (has_id k) (rows tbl) || isbn_taken tbl k (Book.isbn b)
      then inl IntegrityError
      else inr (k, Build (rows tbl ++ [with_values k b])
                         (Z.max (auto_increment tbl) (k + 1))).

(** [UPDATE books SET ... WHERE id = k] *)
Definition update (tbl : t) (k : Z) (b : Book.t) : exn + t :=
      if negb (fits b) then inl DataError
      else if isbn_taken tbl k (Book.isbn b) then inl IntegrityError
      else inr (Build (map (fun r => if has_id k r then with_values k b else r)
                           (rows tbl))
                      (auto_increment tbl)).

(** [DELETE FROM books WHERE id = k] *)
Definition delete (tbl : t) (k : Z) : t :=
      Build (filter (fun r => negb (has_id k r)) (rows tbl)) (auto_increment tbl).
End Statements.
End books.


(** ** The session: the ORM's unit of work *)

(** Python objects are referred to by reference; an instance of [Book] lives
    in the request's heap and the session tracks references. *)
Definition ref : Type := nat.

Fixpoint replace {A : Type} (n : nat) (x : A) (l : list A) : list A :=
  match l, n with
  | [], _ => []
  | _ :: l', O => x :: l'
  | y :: l', S n' => y :: replace n' x l'
  end.

(** The session keeps sets of references: marking twice is marking once. *)
Definition mark (r : ref) (refs : list ref) : list ref :=
  if existsb (Nat.eqb r) refs then refs else refs ++ [r].

Module Session.
(** What a [Session] keeps between two flushes: the persistent instances it
    has loaded, the pending ones ([add]), the modified ones and the ones
    marked for deletion. *)
Record t : Type := Build {
  identity_map : list ref;
  new : list ref;
  dirty : list ref;
  deleted : list ref
}.

Definition empty : t := Build [] [] [] [].
End Session.

(** The state a handler runs in: its objects, its session, and the table
    the session is bound to. *)
Record State : Type := mkState {
  heap : list Book.t;
  session : Session.t;
  database : books.t
}.

(** Handlers are computations over [State] that return or raise.  The state
    survives an exception: what was committed stays committed. *)
Definition M (A : Type) : Type := State -> (exn + A) * State.

Definition ret {A : Type} (a : A) : M A := fun st => (inr a, st).

Definition raise {A : Type} (e : exn) : M A := fun st => (inl e, st).

Definition bind {A B : Type} (c : M A) (k : A -> M B) : M B :=
  fun st =>
    match c st with
    | (inl e, st') => (inl e, st')
    | (inr a, st') => k a st'
    end.

Declare Scope monad_scope.
Delimit Scope monad_scope with monad.
Notation "x <- c ;; k" := (bind c (fun x => k))
  (at level 61, c at next level, right associativity) : monad_scope.
Notation "c ;; k" := (bind c (fun _ => k))
  (at level 61, right associativity) : monad_scope.
Local Open Scope monad_scope.

Definition of_row (r : books.row) : Book.t :=
  Book.Build (Some (books.id r)) (books.title r) (books.author r)
    (books.published_year r) (books.genre r) (books.isbn r).

(** Evaluating a constructor expression [Book(...)] allocates the instance. *)
Definition new_object (b : Book.t) : M ref :=
  fun st =>
    (inr (List.length (heap st)),
     mkState (heap st ++ [b]) (session st) (database st)).

(** Reading the attributes of an instance. *)
Definition attributes (r : ref) : M Book.t :=
  fun st =>
    match nth_error (heap st) r with
    | Some b => (inr b, st)
    | None => (inl InvalidRequestError, st)
    end.

(** [obj.attr = v].  An instance the session has loaded becomes dirty. *)
Definition setattr {V : Type} (r : ref) (set : V -> Book.t -> Book.t) (v : V)
  : M unit :=
  fun st =>
    match nth_error (heap st) r with
    | None => (inl InvalidRequestError, st)
    | Some b =>
        let s := session st in
        let s' :=
          if existsb (Nat.eqb r) (Session.identity_map s)
          then Session.Build (Session.identity_map s) (Session.new s)
                 (mark r (Session.dirty s)) (Session.deleted s)
          else s in
        (inr tt, mkState (replace r (set v b) (heap st)) s' (database st))
    end.

(** An instance loaded from a row is persistent: it enters the identity map. *)
Definition load (row : books.row) : M ref :=
  fun st =>
    let r := List.length (heap st) in
    let s := session st in
    (inr r,
     mkState (heap st ++ [of_row row])
       (Session.Build (Session.identity_map s ++ [r]) (Session.new s)
          (Session.dirty s) (Session.deleted s))
       (database st)).

Fixpoint load_all (l : list books.row) : M (list ref) :=
  match l with
  | [] => ret []
  | row :: l' => r <- load row ;; rs <- load_all l' ;; ret (r :: rs)
  end.

(** A query over [Book], as built by [db.query(Book).filter(...)]: its WHERE
    clause. *)
Module Query.
Definition t : Type := books.row -> bool.

(** [q.filter(criterion)] *)
Definition filter (q : t) (criterion : books.row -> bool) : t :=
  fun row => q row && criterion row.

(** [q.first()]: the first matching row as an instance, or [None]. *)
Definition first (q : t) : M (option ref) :=
  fun st =>
    match find q (books.rows (database st)) with
    | None => (inr None, st)
    | Some row => (r <- load row ;; ret (Some r)) st
    end.

(** [q.all()] *)
Definition all (q : t) : M (list ref) :=
  fun st => load_all (List.filter q (books.rows (database st))) st.
End Query.

(** The methods of the session [db] that the handlers call. *)
Module db.
Section Methods.
Context {collation : Collation}.

(** [db.query(Book)] *)
Definition query_Book : Query.t := fun _ => true.

Definition track (f : Session.t -> Session.t) : M unit :=
  fun st => (inr tt, mkState (heap st) (f (session st)) (database st)).

(** [db.add(obj)] *)
Definition add (r : ref) : M unit :=
  track (fun s => Session.Build (Session.identity_map s)
                    (mark r (Session.new s)) (Session.dirty s)
                    (Session.deleted s)).

(** [db.delete(obj)] *)
Definition delete (r : ref) : M unit :=
  track (fun s => Session.Build (Session.identity_map s) (Session.new s)
                    (Session.dirty s) (mark r (Session.deleted s))).

(** The flush sends the pending INSERTs, then the UPDATEs of the modified
    instances, then the DELETEs.  An inserted instance receives its key. *)
Fixpoint flush_new (refs : list ref) (h : list Book.t) (tbl : books.t)
  : exn + list Book.t * books.t :=
  match refs with
  | [] => inr (h, tbl)
  | r :: refs' =>
      match nth_error h r with
      | None => inl InvalidRequestError
      | Some b =>
          match books.insert tbl b with
          | inl e => inl e
          | inr (k, tbl') =>
              flush_new refs' (replace r (Book.set_id (Some k) b) h) tbl'
          end
      end
  end.

Fixpoint flush_dirty (refs : list ref) (h : list Book.t) (tbl : books.t)
  : exn + books.t :=
  match refs with
  | [] => inr tbl
  | r :: refs' =>
      match nth_error h r with
      | Some (Book.Build (Some k) _ _ _ _ _ as b) =>
          match books.update tbl k b with
          | inl e => inl e
          | inr tbl' => flush_dirty refs' h tbl'
          end
      | _ => inl InvalidRequestError
      end
  end.

Fixpoint flush_deleted (refs : list ref) (h : list Book.t) (tbl : books.t)
  : exn + books.t :=
  match refs with
  | [] => inr tbl
  | r :: refs' =>
      match nth_error h r with
      | Some (Book.Build (Some k) _ _ _ _ _) =>
          flush_deleted refs' h (books.delete tbl k)
      | _ => inl InvalidRequestError
      end
  end.

Definition flush (st : State) : exn + list Book.t * books.t :=
  match flush_new (Session.new (session st)) (heap st) (database st) with
  | inl e => inl e
  | inr (h, tbl) =>
      match flush_dirty (Session.dirty (session st)) h tbl with
      | inl e => inl e
      | inr tbl' =>
          match flush_deleted (Session.deleted (session st)) h tbl' with
          | inl e => inl e
          | inr tbl'' => inr (h, tbl'')
          end
      end
  end.

(** [db.commit()]: flush and commit.  When a statement fails the transaction
    is rolled back, the table is as before, and the error is raised. *)
Definition commit : M unit :=
  fun st =>
    match flush st with
    | inl e => (inl e, st)
    | inr (h, tbl) =>
        let s := session st in
        (inr tt,
         mkState h
           (Session.Build (Session.identity_map s ++ Session.new s) [] [] [])
           tbl)
    end.

(** [db.refresh(obj)]: reload the attributes from the row of the instance. *)
Definition refresh (r : ref) : M unit :=
  fun st =>
    match nth_error (heap st) r with
    | Some (Book.Build (Some k) _ _ _ _ _) =>
        match books.select_by_id (database st) k with
        | Some row =>
            (inr tt,
             mkState (replace r (of_row row) (heap st)) (session st)
               (database st))
        | None => (inl InvalidRequestError, st)
        end
    | _ => (inl InvalidRequestError, st)
    end.
End Methods.
End db.

(** ** The dependency [get_db] *)

(** The process's storage and the life-cycle events of its sessions. *)
Inductive event : Type :=
| session_created
| session_closed.

Record World : Type := mkWorld {
  storage : books.t;
  sessions : list event
}.

(** [SessionLocal()] *)
Definition SessionLocal (w : World) : Session.t * World :=
  (Session.empty, mkWorld (storage w) (sessions w ++ [session_created])).

(** [db.close()]: the session lets go of its objects and of whatever it had
    not committed; the table is what the last commit left. *)
Definition close (st : State) (w : World) : World :=
  mkWorld (database st) (sessions w ++ [session_closed]).

(** [get_db] brackets the endpoint that depends on it:
    [db = SessionLocal(); try: yield db; finally: db.close()].
    The endpoint's outcome, returned or raised, passes through. *)
Definition get_db {A : Type} (endpoint : M A) (w : World) : (exn + A) * World :=
  let '(db, w1) := SessionLocal w in
  let '(outcome, st) := endpoint (mkState [] db (storage w1)) in
  (outcome, close st w1).

(** ** Routes *)

(** [str(n)] as an f-string renders an [int]. *)
Definition str (n : Z) : string := NilZero.string_of_int (Z.to_int n).

Section Routes.
Context {collation : Collation}.

(** [GET /books] *)
Definition get_books : M (list ref) :=
  books <- Query.all db.query_Book ;;
  ret books.

(** [GET /books/{book_id}] *)
Definition get_book (book_id : Z) : M ref :=
  book <- Query.first
            (Query.filter db.query_Book (fun b => books.id b =? book_id)) ;;
  match book with
  | None => raise (HTTPException 404 "Book not found")
  | Some book => ret book
  end.

(** [POST /books] *)
Definition create_book (book : BookCreate.t) : M ref :=
  db_book <- new_object
               (Book.init (BookCreate.title book) (BookCreate.author book)
                  (BookCreate.published_year book) (BookCreate.genre book)
                  (BookCreate.isbn book)) ;;
  db.add db_book ;;
  db.commit ;;
  db.refresh db_book ;;
  ret db_book.

(** [PUT /books/{book_id}] *)
Definition update_book (book_id : Z) (updated_book : BookCreate.t) : M ref :=
  db_book <- Query.first
               (Query.filter db.query_Book (fun b => books.id b =? book_id)) ;;
  match db_book with
  | None => raise (HTTPException 404 "Book not found")
  | Some db_book =>
      setattr db_book Book.set_title (BookCreate.title updated_book) ;;
      setattr db_book Book.set_author (BookCreate.author updated_book) ;;
      setattr db_book Book.set_published_year
        (BookCreate.published_year updated_book) ;;
      setattr db_book Book.set_genre (BookCreate.genre updated_book) ;;
      setattr db_book Book.set_isbn (BookCreate.isbn updated_book) ;;
      db.commit ;;
      db.refresh db_book ;;
      ret db_book
  end.

(** [DELETE /books/{book_id}] *)
Definition delete_book (book_id : Z) : M (list (string * string)) :=
  db_book <- Query.first
               (Query.filter db.query_Book (fun b => books.id b =? book_id)) ;;
  match db_book with
  | None => raise (HTTPException 404 "Book not found")
  | Some db_book =>
      db.delete db_book ;;
      db.commit ;;
      ret [("message", String.append "Book with ID "
                         (String.append (str book_id) " deleted"))]
  end.
End Routes.

(** ** Request bodies and their validation *)

(** A decoded JSON value.  A number written with a fraction or an exponent is
    kept as the pair it was written with. *)
Inductive json : Type :=
| JNull
| JBool (b : bool)
| JInt (n : Z)
| JFloat (mantissa exponent : Z)
| JString (s : string)
| JArray (items : list json)
| JObject (members : list (string * json)).

Definition is_scalar (v : json) : bool :=
  match v with
  | JBool _ | JInt _ | JFloat _ _ | JString _ => true
  | JNull | JArray _ | JObject _ => false
  end.

(** Member [key] of an object; of several members with one key the last one
    counts. *)
Fixpoint member (key : string) (members : list (string * json)) : option json :=
  match members with
  | [] => None
  | (k, v) :: rest =>
      match member key rest with
      | Some v' => Some v'
      | None => if String.eqb k key then Some v else None
      end
  end.

(** How the schema library reads one value as a field declared [str] or
    [int].  Which values of another type it converts depends on the library;
    what is fixed is that a value of the declared type is taken as it is and
    that [null], arrays and objects are refused. *)
Class FieldValidators : Type := {
  str_validator : json -> option string;
  int_validator : json -> option Z;
  str_validator_str : forall s, str_validator (JString s) = Some s;
  int_validator_int : forall n, int_validator (JInt n) = Some n;
  str_validator_scalar : forall v, is_scalar v = false -> str_validator v = None;
  int_validator_scalar : forall v, is_scalar v = false -> int_validator v = None
}.

Section Validation.
Context {validators : FieldValidators}.

(** One required field: present and readable, or an error at its name. *)
Definition field {A : Type} (validator : json -> option A) (name : string)
    (members : list (string * json)) : (string * error_type) + A :=
  match member name members with
  | None => inl (name, missing)
  | Some v =>
      match validator v with
      | None => inl (name, type_error)
      | Some a => inr a
      end
  end.

Definition errors_of {A : Type} (r : (string * error_type) + A)
  : list (string * error_type) :=
  match r with
  | inl e => [e]
  | inr _ => []
  end.

(** Validation of a body against [BookCreate]: every field is required and
    checked in declaration order, the errors of all fields are reported. *)
Definition validate (body : json) : list (string * error_type) + BookCreate.t :=
  match body with
  | JObject members =>
      let title := field str_validator "title" members in
      let author := field str_validator "author" members in
      let published_year := field int_validator "published_year" members in
      let genre := field str_validator "genre" members in
      let isbn := field str_validator "isbn" members in
      match title, author, published_year, genre, isbn with
      | inr t, inr a, inr y, inr g, inr i => inr (BookCreate.Build t a y g i)
      | _, _, _, _, _ =>
          inl (errors_of title ++ errors_of author ++ errors_of published_year
               ++ errors_of genre ++ errors_of isbn)
      end
  | _ => inl [("body", not_a_dict)]
  end.
End Validation.

(** ** The application *)

(** A request that has reached its route.  [book_id] is the path segment as
    the integer the endpoint receives; a segment that is not an integer is
    answered by the framework before the endpoint and has no request
    here. *)
Inductive Request : Type :=
| GET_books
| GET_book (book_id : Z)
| POST_books (body : json)
| PUT_book (book_id : Z) (body : json)
| DELETE_book (book_id : Z).

Inductive content : Type :=
| json_books (l : list BookOut.t)
| json_book (b : BookOut.t)
| json_dict (d : list (string * string))
| json_errors (errors : list (string * error_type))
| plain_text (s : string).

Record Response : Type := mkResponse {
  status_code : Z;
  body : content
}.

(** [BookOut.from_orm(obj)]: [id] must be an [int]. *)
Definition from_orm (b : Book.t) : option BookOut.t :=
  match Book.id b with
  | Some k =>
      Some (BookOut.Build (Book.title b) (Book.author b) (Book.published_year b)
              (Book.genre b) (Book.isbn b) k)
  | None => None
  end.

(** [response_model=BookOut] *)
Definition serialize (r : ref) : M BookOut.t :=
  b <- attributes r ;;
  match from_orm b with
  | Some out => ret out
  | None => raise ResponseValidationError
  end.

(** [response_model=List[BookOut]] *)
Fixpoint serialize_all (l : list ref) : M (list BookOut.t) :=
  match l with
  | [] => ret []
  | r :: l' => out <- serialize r ;; outs <- serialize_all l' ;; ret (out :: outs)
  end.

Section App.
Context {collation : Collation} {validators : FieldValidators}.

(** A body parameter is validated before the endpoint function is called. *)
Definition parse (body : json) : M BookCreate.t :=
  match validate body with
  | inl errors => raise (RequestValidationError errors)
  | inr book => ret book
  end.

(** What the framework runs for a request once [get_db] has yielded. *)
Definition endpoint (req : Request) : M content :=
  match req with
  | GET_books =>
      books <- get_books ;; outs <- serialize_all books ;; ret (json_books outs)
  | GET_book book_id =>
      book <- get_book book_id ;; out <- serialize book ;; ret (json_book out)
  | POST_books body =>
      book <- parse body ;;
      db_book <- create_book book ;; out <- serialize db_book ;;
      ret (json_book out)
  | PUT_book book_id body =>
      updated_book <- parse body ;;
      db_book <- update_book book_id updated_book ;; out <- serialize db_book ;;
      ret (json_book out)
  | DELETE_book book_id =>
      d <- delete_book book_id ;; ret (json_dict d)
  end.

(** An [HTTPException] becomes its status and detail, a validation error of
    the request a 422, anything else a 500. *)
Definition exception_handler (e : exn) : Response :=
  match e with
  | HTTPException status_code detail =>
      mkResponse status_code (json_dict [("detail", detail)])
  | RequestValidationError errors => mkResponse 422 (json_errors errors)
  | _ => mkResponse 500 (plain_text "Internal Server Error")
  end.

Definition app (req : Request) (w : World) : Response * World :=
  match get_db (endpoint req) w with
  | (inr c, w') => (mkResponse 200 c, w')
  | (inl e, w') => (exception_handler e, w')
  end.
End App.

(** ** Vocabulary of the statements *)

Definition out_of_row (r : books.row) : BookOut.t :=
  BookOut.Build (books.title r) (books.author r) (books.published_year r)
    (books.genre r) (books.isbn r) (books.id r).

Definition out_of (book : BookCreate.t) (k : Z) : BookOut.t :=
  BookOut.Build (BookCreate.title book) (BookCreate.author book)
    (BookCreate.published_year book) (BookCreate.genre book)
    (BookCreate.isbn book) k.

(** The instance [create_book] builds from a validated body. *)
Definition instance_of (book : BookCreate.t) : Book.t :=
  Book.init (BookCreate.title book) (BookCreate.author book)
    (BookCreate.published_year book) (BookCreate.genre book)
    (BookCreate.isbn book).

(** The values of a body fit the columns of the table. *)
Definition fits_columns (book : BookCreate.t) : Prop :=
  books.fits (instance_of book) = true.

(** The constraints the table declares, as an invariant of its content:
    keys lie below the counter, [id] is a key, [isbn] is a key. *)
Definition consistent {collation : Collation} (tbl : books.t) : Prop :=
  (forall r, In r (books.rows tbl) -> books.id r < books.auto_increment tbl)
  /\ NoDup (map books.id (books.rows tbl))
  /\ (forall r r', In r (books.rows tbl) -> In r' (books.rows tbl) ->
        books.id r <> books.id r' ->
        same_key (books.isbn r) (books.isbn r') = false).

(** The world after one request that left the table as [tbl]. *)
Definition served (w : World) (tbl : books.t) : World :=
  mkWorld tbl ((sessions w ++ [session_created]) ++ [session_closed]).

Definition not_found : Response :=
  mkResponse 404 (json_dict [("detail", "Book not found")]).

Definition server_error : Response :=
  mkResponse 500 (plain_text "Internal Server Error").

Definition deleted_message (k : Z) : Response :=
  mkResponse 200
    (json_dict [("message", String.append "Book with ID "
                              (String.append (str k) " deleted"))]).

(** The names of the fields [BookCreate] declares. *)
Definition required_fields : list string :=
  ["title"; "author"; "published_year"; "genre"; "isbn"].


(** What [GET /books] returns for a table: its records in storage order. *)
Definition listing (w : World) : list BookOut.t :=
  map out_of_row (books.rows (storage w)).


Section Serving.
Context {collation : Collation} {validators : FieldValidators}.

(** The world after the requests [reqs], served one after the other. *)
Definition serve_all (reqs : list Request) (w : World) : World :=
  fold_left (fun w req => snd (app req w)) reqs w.
End Serving.


(** Decimal numerals, read independently of how the code writes them. *)
Definition digit (c : ascii) : option Z :=
  let code := Z.of_nat (nat_of_ascii c) in
  if (48 <=? code) && (code <=? 57) then Some (code - 48) else None.

(** The value of a run of digits after the digits that gave [acc]. *)
Fixpoint read_digits (s : string) (acc : Z) : option Z :=
  match s with
  | EmptyString => Some acc
  | String c s' =>
      match digit c with
      | Some d => read_digits s' (10 * acc + d)
      | None => None
      end
  end.

(** The integer that a decimal numeral denotes: an optional minus sign and
    then one digit or more; any other text denotes nothing. *)
Definition read_int (s : string) : option Z :=
  match s with
  | EmptyString => None
  | String c s' =>
      if Ascii.eqb c "-"
      then match s' with
           | EmptyString => None
           | _ => option_map Z.opp (read_digits s' 0)
           end
      else read_digits s 0
  end.




(** ** Concrete collaborators and sample data *)

(** A binary collation: two keys are the same when they are the same text. *)
Definition binary_collation : Collation :=
  {| same_key := String.eqb;
     same_key_refl := String.eqb_refl;
     same_key_sym := String.eqb_sym |}.

Definition lax_str (v : json) : option string :=
  match v with
  | JString s => Some s
  | _ => None
  end.

(** A sample reading of an [int] field: integers, and texts that are
    decimal numerals. *)
Definition lax_int (v : json) : option Z :=
  match v with
  | JInt n => Some n
  | JString s => read_int s
  | _ => None
  end.

Definition lax_validators : FieldValidators.
Proof.
  refine {| str_validator := lax_str; int_validator := lax_int |};
    try reflexivity; intros [] H; try reflexivity; discriminate H.
Defined.

Definition body_of (title author : json) (published_year : json)
    (genre isbn : json) : json :=
  JObject [("title", title); ("author", author);
           ("published_year", published_year); ("genre", genre);
           ("isbn", isbn)].

Definition book_A : BookCreate.t :=
  BookCreate.Build "A" "B" 2000 "Fiction" "1111111111111".

Definition body_A : json :=
  body_of (JString "A") (JString "B") (JInt 2000) (JString "Fiction")
    (JString "1111111111111").

Definition book_C : BookCreate.t :=
  BookCreate.Build "C" "D" 1999 "Essay" "2222222222222".

Definition body_C : json :=
  body_of (JString "C") (JString "D") (JInt 1999) (JString "Essay")
    (JString "2222222222222").

Definition book_A2 : BookCreate.t :=
  BookCreate.Build "A2" "B" 2001 "Fiction" "1111111111111".

Definition body_A2 : json :=
  body_of (JString "A2") (JString "B") (JInt 2001) (JString "Fiction")
    (JString "1111111111111").


(** The title of book A with the isbn of book C. *)
Definition body_A_isbn_C : json :=
  body_of (JString "A") (JString "B") (JInt 2000) (JString "Fiction")
    (JString "2222222222222").



Definition row_A : books.row := books.Row 1 "A" "B" 2000 "Fiction" "1111111111111".

Definition row_C : books.row := books.Row 2 "C" "D" 1999 "Essay" "2222222222222".

Definition world_empty : World := mkWorld books.empty [].

Definition world_A : World := mkWorld (books.Build [row_A] 2) [].

Definition world_AC : World := mkWorld (books.Build [row_A; row_C] 3) [].

Definition world_120 : World :=
  mkWorld (books.Build [books.Row 120 "A" "B" 2000 "Fiction" "1111111111111"] 121)
    [].


(** A table whose id counter has left the range of the INTEGER column. *)
Definition world_max : World :=
  mkWorld
    (books.Build [books.Row 2147483647 "A" "B" 2000 "Fiction" "1111111111111"]
       2147483648)
    [].


(** * Properties *)

(** ** The table *)

Lemma has_id_true k r : books.has_id k r = true <-> books.id r = k.
Proof. unfold books.has_id. apply Z.eqb_eq. Qed.

Lemma has_id_false k r : books.has_id k r = false <-> books.id r <> k.
Proof. unfold books.has_id. apply Z.eqb_neq. Qed.

Lemma select_by_id_Some tbl k row :
  books.select_by_id tbl k = Some row ->
  In row (books.rows tbl) /\ books.id row = k.
Proof.
  unfold books.select_by_id. intros H. apply find_some in H.
  destruct H as [Hin Hid]. split; [assumption | now apply has_id_true].
Qed.

Lemma select_by_id_None tbl k :
  books.select_by_id tbl k = None <->
  (forall row, In row (books.rows tbl) -> books.id row <> k).
Proof.
  unfold books.select_by_id. split.
  - intros H row Hin. apply has_id_false. revert row Hin. now apply find_none.
  - intros H. induction (books.rows tbl) as [|r l IH]; [reflexivity|].
    simpl. destruct (books.has_id k r) eqn:E.
    + apply has_id_true in E. exfalso. apply (H r); [now left | assumption].
    + apply IH. intros row Hin. apply H. now right.
Qed.

Lemma select_by_id_exists tbl k :
  (exists row, In row (books.rows tbl) /\ books.id row = k) ->
  exists row, books.select_by_id tbl k = Some row.
Proof.
  intros [row [Hin Hid]]. destruct (books.select_by_id tbl k) eqn:E.
  - now exists r.
  - exfalso. rewrite select_by_id_None in E. now apply (E row).
Qed.

(** Where [id] is a key, the row a SELECT by key finds is the row. *)
Lemma select_by_id_key l row auto :
  NoDup (map books.id l) -> In row l ->
  books.select_by_id (books.Build l auto) (books.id row) = Some row.
Proof.
  unfold books.select_by_id. simpl. induction l as [|r l IH]; intros Hnd Hin.
  - destruct Hin.
  - simpl in *. inversion Hnd as [|x xs Hnot Hnd']; subst.
    destruct Hin as [-> | Hin].
    + replace (books.has_id (books.id row) row) with true; [reflexivity|].
      symmetry. now apply has_id_true.
    + destruct (books.has_id (books.id row) r) eqn:E.
      * apply has_id_true in E. exfalso. apply Hnot. rewrite E.
        now apply in_map.
      * now apply IH.
Qed.

Section TableFacts.
Context {collation : Collation}.

Lemma isbn_taken_false tbl k s :
  books.isbn_taken tbl k s = false <->
  (forall r, In r (books.rows tbl) -> books.id r <> k ->
             same_key s (books.isbn r) = false).
Proof.
  unfold books.isbn_taken. split.
  - intros H r Hin Hid.
    destruct (same_key s (books.isbn r)) eqn:E; [|reflexivity].
    assert (Hex : existsb (fun r => negb (books.has_id k r)
                                    && same_key s (books.isbn r))
                    (books.rows tbl) = true).
    { apply existsb_exists. exists r. split; [assumption|].
      apply has_id_false in Hid. now rewrite Hid, E. }
    congruence.
  - intros H. induction (books.rows tbl) as [|r l IH]; [reflexivity|].
    simpl. destruct (books.has_id k r) eqn:E; simpl.
    + apply IH. intros r' Hin. apply H. now right.
    + rewrite (H r); [|now left|now apply has_id_false]. simpl.
      apply IH. intros r' Hin. apply H. now right.
Qed.

Lemma isbn_taken_true tbl k s r :
  In r (books.rows tbl) -> books.id r <> k -> same_key s (books.isbn r) = true ->
  books.isbn_taken tbl k s = true.
Proof.
  intros Hin Hid Hkey. unfold books.isbn_taken. apply existsb_exists.
  exists r. split; [assumption|]. apply has_id_false in Hid.
  now rewrite Hid, Hkey.
Qed.

Lemma existsb_has_id_false tbl k :
  existsb (books.has_id k) (books.rows tbl) = false <->
  (forall r, In r (books.rows tbl) -> books.id r <> k).
Proof.
  split.
  - intros H r Hin. apply has_id_false.
    destruct (books.has_id k r) eqn:E; [|reflexivity].
    assert (Hex : existsb (books.has_id k) (books.rows tbl) = true)
      by (apply existsb_exists; now exists r).
    congruence.
  - intros H. induction (books.rows tbl) as [|r l IH]; [reflexivity|].
    simpl. rewrite (proj2 (has_id_false k r)) by (apply H; now left).
    apply IH. intros r' Hin. apply H. now right.
Qed.

(** INSERT of an instance without [id]: when it succeeds and when not. *)
Lemma insert_accepts tbl b :
  Book.id b = None -> books.fits b = true ->
  books.in_integer_range (books.auto_increment tbl) = true ->
  (forall r, In r (books.rows tbl) -> books.id r < books.auto_increment tbl) ->
  (forall r, In r (books.rows tbl) ->
             same_key (Book.isbn b) (books.isbn r) = false) ->
  books.insert tbl b =
  inr (books.auto_increment tbl,
       books.Build (books.rows tbl
                    ++ [books.with_values (books.auto_increment tbl) b])
         (books.auto_increment tbl + 1)).
Proof.
  intros Hid Hfits Hrange Hlt Hfree. unfold books.insert.
  rewrite Hid, Hfits, Hrange. simpl.
  rewrite (proj2 (existsb_has_id_false tbl (books.auto_increment tbl)))
    by (intros r Hin; specialize (Hlt r Hin); lia).
  rewrite (proj2 (isbn_taken_false tbl _ _)) by (intros r Hin _; now apply Hfree).
  simpl. do 3 f_equal. lia.
Qed.

Lemma insert_duplicate_isbn tbl b r :
  Book.id b = None ->
  In r (books.rows tbl) -> same_key (Book.isbn b) (books.isbn r) = true ->
  (forall r, In r (books.rows tbl) -> books.id r < books.auto_increment tbl) ->
  books.insert tbl b
  = inl (if books.fits b && books.in_integer_range (books.auto_increment tbl)
         then IntegrityError else DataError).
Proof.
  intros Hid Hin Hkey Hlt. unfold books.insert. rewrite Hid.
  destruct (books.fits b); simpl; [|reflexivity].
  destruct (books.in_integer_range (books.auto_increment tbl)); simpl;
    [|reflexivity].
  rewrite (isbn_taken_true tbl (books.auto_increment tbl) _ r Hin)
    by (try assumption; specialize (Hlt r Hin); lia).
  now rewrite orb_true_r.
Qed.

Lemma insert_inr tbl b k tbl' :
  books.insert tbl b = inr (k, tbl') ->
  books.rows tbl' = books.rows tbl ++ [books.with_values k b]
  /\ (forall r, In r (books.rows tbl) -> books.id r <> k)
  /\ books.select_by_id tbl' k = Some (books.with_values k b).
Proof.
  unfold books.insert.
  set (k0 := match Book.id b with Some k1 => k1 | None => _ end).
  destruct (negb (books.fits b) || negb (books.in_integer_range k0));
    [discriminate|].
  destruct (existsb (books.has_id k0) (books.rows tbl)) eqn:Eid;
    [discriminate|].
  destruct (books.isbn_taken tbl k0 (Book.isbn b)); [discriminate|].
  simpl. intros H. injection H as <- <-. simpl.
  rewrite existsb_has_id_false in Eid.
  split; [reflexivity|]. split; [assumption|].
  unfold books.select_by_id. simpl.
  induction (books.rows tbl) as [|r l IH]; simpl.
  - now rewrite (proj2 (has_id_true k0 (books.with_values k0 b))).
  - rewrite (proj2 (has_id_false k0 r)) by (apply Eid; now left).
    apply IH. intros r' Hin. apply Eid. now right.
Qed.

Lemma update_inr tbl k b tbl' row :
  books.update tbl k b = inr tbl' -> books.select_by_id tbl k = Some row ->
  books.select_by_id tbl' k = Some (books.with_values k b).
Proof.
  unfold books.update. destruct (negb (books.fits b)); [discriminate|].
  destruct (books.isbn_taken tbl k (Book.isbn b)); [discriminate|].
  intros H. injection H as <-. unfold books.select_by_id. simpl.
  induction (books.rows tbl) as [|r l IH]; simpl; [discriminate|].
  destruct (books.has_id k r) eqn:E.
  - intros _. now rewrite (proj2 (has_id_true k (books.with_values k b))).
  - rewrite E. apply IH.
Qed.

Lemma update_accepts tbl k b :
  books.fits b = true ->
  (forall r, In r (books.rows tbl) -> books.id r <> k ->
             same_key (Book.isbn b) (books.isbn r) = false) ->
  books.update tbl k b =
  inr (books.Build
         (map (fun r => if books.has_id k r then books.with_values k b else r)
            (books.rows tbl))
         (books.auto_increment tbl)).
Proof.
  intros Hfits Hfree. unfold books.update. rewrite Hfits. simpl.
  now rewrite (proj2 (isbn_taken_false tbl k _)).
Qed.

Lemma update_duplicate_isbn tbl k b r :
  In r (books.rows tbl) -> books.id r <> k ->
  same_key (Book.isbn b) (books.isbn r) = true ->
  books.update tbl k b
  = inl (if books.fits b then IntegrityError else DataError).
Proof.
  intros Hin Hid Hkey. unfold books.update.
  destruct (books.fits b); simpl; [|reflexivity].
  now rewrite (isbn_taken_true tbl k _ r Hin Hid Hkey).
Qed.

Lemma select_after_delete tbl k :
  books.select_by_id (books.delete tbl k) k = None.
Proof.
  apply select_by_id_None. unfold books.delete. simpl. intros row Hin.
  apply filter_In in Hin. destruct Hin as [_ H].
  apply has_id_false. now destruct (books.has_id k row).
Qed.
End TableFacts.

(** ** What each request does, in terms of the table *)

Section Runs.
Context {collation : Collation} {validators : FieldValidators}.

Lemma exception_handler_storage_error e :
  e = IntegrityError \/ e = DataError -> exception_handler e = server_error.
Proof. now intros [-> | ->]. Qed.

Lemma app_GET_book w k :
  app (GET_book k) w =
  match books.select_by_id (storage w) k with
  | Some row => (mkResponse 200 (json_book (out_of_row row)), served w (storage w))
  | None => (not_found, served w (storage w))
  end.
Proof.
  unfold app, get_db, endpoint, get_book, bind, Query.first; simpl.
  change (find _ (books.rows (storage w)))
    with (books.select_by_id (storage w) k).
  destruct (books.select_by_id (storage w) k) as [row|]; reflexivity.
Qed.

Lemma app_invalid_POST w body errors :
  validate body = inl errors ->
  app (POST_books body) w =
  (mkResponse 422 (json_errors errors), served w (storage w)).
Proof.
  intros Hv. unfold app, get_db, endpoint, parse, bind; simpl.
  now rewrite Hv.
Qed.

Lemma app_invalid_PUT w k body errors :
  validate body = inl errors ->
  app (PUT_book k body) w =
  (mkResponse 422 (json_errors errors), served w (storage w)).
Proof.
  intros Hv. unfold app, get_db, endpoint, parse, bind; simpl.
  now rewrite Hv.
Qed.

Lemma app_POST_books w body book :
  validate body = inr book ->
  app (POST_books body) w =
  match books.insert (storage w) (instance_of book) with
  | inl e => (exception_handler e, served w (storage w))
  | inr (k, tbl) => (mkResponse 200 (json_book (out_of book k)), served w tbl)
  end.
Proof.
  intros Hv.
  unfold app, get_db, endpoint, parse, create_book, bind; simpl.
  rewrite Hv. unfold ret, new_object, db.add, db.track, db.commit, db.flush.
  simpl. fold (instance_of book).
  destruct (books.insert (storage w) (instance_of book)) as [e|[k tbl]] eqn:E;
    [reflexivity|].
  simpl. unfold db.refresh; simpl.
  destruct (insert_inr _ _ _ _ E) as (_ & _ & Hsel). rewrite Hsel.
  reflexivity.
Qed.

Lemma run_PUT_book w k body book :
  validate body = inr book ->
  get_db (endpoint (PUT_book k body)) w =
  match books.select_by_id (storage w) k with
  | None => (inl (HTTPException 404 "Book not found"), served w (storage w))
  | Some _ =>
      match books.update (storage w) k (Book.set_id (Some k) (instance_of book))
      with
      | inl e => (inl e, served w (storage w))
      | inr tbl => (inr (json_book (out_of book k)), served w tbl)
      end
  end.
Proof.
  intros Hv.
  unfold get_db, endpoint, parse, update_book, bind, Query.first; simpl.
  rewrite Hv. unfold ret; simpl.
  change (find _ (books.rows (storage w)))
    with (books.select_by_id (storage w) k).
  destruct (books.select_by_id (storage w) k) as [row|] eqn:Esel;
    [|reflexivity].
  destruct (select_by_id_Some _ _ _ Esel) as [_ Hid].
  unfold load, setattr, db.commit, db.flush; simpl.
  unfold Book.set_title, Book.set_author, Book.set_published_year,
    Book.set_genre, Book.set_isbn, of_row; simpl.
  rewrite Hid.
  change (Book.Build (Some k) _ _ _ _ _)
    with (Book.set_id (Some k) (instance_of book)).
  destruct (books.update (storage w) k (Book.set_id (Some k) (instance_of book)))
    as [e|tbl] eqn:E; [reflexivity|].
  simpl. unfold db.refresh; simpl.
  rewrite (update_inr _ _ _ _ _ E Esel). reflexivity.
Qed.

Lemma app_PUT_book w k body book :
  validate body = inr book ->
  app (PUT_book k body) w =
  match books.select_by_id (storage w) k with
  | None => (not_found, served w (storage w))
  | Some _ =>
      match books.update (storage w) k (Book.set_id (Some k) (instance_of book))
      with
      | inl e => (exception_handler e, served w (storage w))
      | inr tbl => (mkResponse 200 (json_book (out_of book k)), served w tbl)
      end
  end.
Proof.
  intros Hv. unfold app. rewrite (run_PUT_book w k _ _ Hv).
  destruct (books.select_by_id (storage w) k); [|reflexivity].
  now destruct (books.update (storage w) k _).
Qed.

Lemma app_DELETE_book w k :
  app (DELETE_book k) w =
  match books.select_by_id (storage w) k with
  | None => (not_found, served w (storage w))
  | Some _ => (deleted_message k, served w (books.delete (storage w) k))
  end.
Proof.
  unfold app, get_db, endpoint, delete_book, bind, Query.first; simpl.
  change (find _ (books.rows (storage w)))
    with (books.select_by_id (storage w) k).
  destruct (books.select_by_id (storage w) k) as [row|] eqn:Esel;
    [|reflexivity].
  destruct (select_by_id_Some _ _ _ Esel) as [_ Hid].
  unfold load, db.delete, db.track, db.commit, db.flush; simpl.
  rewrite Hid. reflexivity.
Qed.

(** Whatever the endpoint does, the session [get_db] created is closed. *)
Lemma get_db_sessions (A : Type) (endpoint : M A) w :
  sessions (snd (get_db endpoint w))
  = sessions w ++ [session_created; session_closed].
Proof.
  unfold get_db; simpl.
  destruct (endpoint _) as [outcome st]. simpl.
  now rewrite <- app_assoc.
Qed.
End Runs.

(** ** [GET /books] returns the table *)

Lemma load_all_run l : forall st,
  load_all l st =
  (inr (seq (List.length (heap st)) (List.length l)),
   mkState (heap st ++ map of_row l)
     (Session.Build
        (Session.identity_map (session st)
         ++ seq (List.length (heap st)) (List.length l))
        (Session.new (session st)) (Session.dirty (session st))
        (Session.deleted (session st)))
     (database st)).
Proof.
  induction l as [|row l IH]; intros [h [im nw dt dl] tbl]; simpl.
  - unfold ret. now rewrite !app_nil_r.
  - unfold bind, load at 1. simpl. rewrite IH. simpl. unfold ret.
    rewrite last_length, <- !app_assoc. reflexivity.
Qed.

Lemma serialize_all_run l : forall h st,
  heap st = h ++ map of_row l ->
  serialize_all (seq (List.length h) (List.length l)) st
  = (inr (map out_of_row l), st).
Proof.
  induction l as [|row l IH]; intros h st Hheap; simpl; [reflexivity|].
  simpl in Hheap.
  unfold bind, serialize at 1, bind, attributes. rewrite Hheap.
  rewrite nth_error_app2, Nat.sub_diag by apply Nat.le_refl. simpl.
  unfold ret.
  rewrite <- (last_length h (of_row row)).
  rewrite (IH (h ++ [of_row row]) st)
    by (now rewrite Hheap, <- app_assoc).
  reflexivity.
Qed.

Section Listing.
Context {collation : Collation} {validators : FieldValidators}.

Lemma app_GET_books w :
  app GET_books w =
  (mkResponse 200 (json_books (map out_of_row (books.rows (storage w)))),
   served w (storage w)).
Proof.
  unfold app, get_db, endpoint, get_books, bind, Query.all; simpl.
  rewrite load_all_run. simpl. unfold ret at 1.
  change (List.filter db.query_Book (books.rows (storage w)))
    with (List.filter (fun _ : books.row => true) (books.rows (storage w))).
  replace (List.filter (fun _ : books.row => true) (books.rows (storage w)))
    with (books.rows (storage w))
    by (induction (books.rows (storage w)) as [|r l IH];
        [reflexivity | simpl; now rewrite <- IH]).
  rewrite (serialize_all_run (books.rows (storage w)) []) by reflexivity.
  reflexivity.
Qed.
End Listing.

(** ** The declared constraints are an invariant *)

Section Invariant.
Context {collation : Collation}.

Lemma empty_consistent : consistent books.empty.
Proof.
  split; [|split]; simpl; try constructor; intros; contradiction.
Qed.

Lemma insert_consistent tbl b k tbl' :
  consistent tbl -> books.insert tbl b = inr (k, tbl') -> consistent tbl'.
Proof.
  intros (Hlt & Hnd & Hkey) H.
  destruct (insert_inr _ _ _ _ H) as (Hrows & Hfresh & _).
  unfold books.insert in H.
  set (k0 := match Book.id b with Some k1 => k1 | None => _ end) in H.
  destruct (negb (books.fits b) || negb (books.in_integer_range k0));
    [discriminate|].
  destruct (existsb (books.has_id k0) (books.rows tbl)); [discriminate|].
  destruct (books.isbn_taken tbl k0 (Book.isbn b)) eqn:Etaken; [discriminate|].
  simpl in H. injection H as Hk Htbl. subst k0.
  rewrite Hk in Etaken. rewrite isbn_taken_false in Etaken.
  assert (Hauto : books.auto_increment tbl' = Z.max (books.auto_increment tbl) (k + 1))
    by (now rewrite <- Htbl, Hk).
  split; [|split]; rewrite ?Hrows, ?Hauto.
  - intros r Hin. apply in_app_or in Hin. destruct Hin as [Hin | [<- | []]].
    + specialize (Hlt r Hin). lia.
    + simpl. lia.
  - rewrite map_app. simpl. apply NoDup_app; [assumption | repeat constructor; intros [] | ].
    intros x Hin [<- | []]. apply in_map_iff in Hin.
    destruct Hin as (r & Hid & Hin). now apply (Hfresh r).
  - intros r r' Hin Hin' Hne.
    apply in_app_or in Hin. apply in_app_or in Hin'.
    destruct Hin as [Hin | [<- | []]], Hin' as [Hin' | [<- | []]]; simpl in *.
    + now apply Hkey.
    + rewrite same_key_sym. now apply Etaken.
    + apply Etaken; [assumption | congruence].
    + congruence.
Qed.

Lemma update_rows_id k b l :
  map books.id
    (map (fun r => if books.has_id k r then books.with_values k b else r) l)
  = map books.id l.
Proof.
  rewrite map_map. apply map_ext. intros r.
  destruct (books.has_id k r) eqn:E; [|reflexivity].
  apply has_id_true in E. now rewrite E.
Qed.

Lemma update_consistent tbl k b tbl' :
  consistent tbl -> books.update tbl k b = inr tbl' -> consistent tbl'.
Proof.
  intros (Hlt & Hnd & Hkey) H. unfold books.update in H.
  destruct (negb (books.fits b)); [discriminate|].
  destruct (books.isbn_taken tbl k (Book.isbn b)) eqn:Etaken; [discriminate|].
  injection H as <-. rewrite isbn_taken_false in Etaken.
  assert (Himage : forall r',
    In r' (map (fun r => if books.has_id k r then books.with_values k b else r)
             (books.rows tbl)) ->
    (books.id r' = k /\ books.isbn r' = Book.isbn b
     /\ exists r, In r (books.rows tbl) /\ books.id r = k)
    \/ (books.id r' <> k /\ In r' (books.rows tbl))).
  { intros r' Hin. apply in_map_iff in Hin. destruct Hin as (r & <- & Hin).
    destruct (books.has_id k r) eqn:E.
    - left. apply has_id_true in E. simpl. repeat split. now exists r.
    - right. apply has_id_false in E. now split. }
  split; [|split]; simpl.
  - intros r' Hin. destruct (Himage r' Hin) as [(Hid & _ & r & Hr & Hrid) | [_ Hr]].
    + rewrite Hid, <- Hrid. now apply Hlt.
    + now apply Hlt.
  - now rewrite update_rows_id.
  - intros r1 r2 H1 H2 Hne.
    destruct (Himage r1 H1) as [(Hid1 & Hisbn1 & _) | [Hid1 Hin1]],
             (Himage r2 H2) as [(Hid2 & Hisbn2 & _) | [Hid2 Hin2]].
    + congruence.
    + rewrite Hisbn1. now apply Etaken.
    + rewrite Hisbn2, same_key_sym. now apply Etaken.
    + now apply Hkey.
Qed.

Lemma NoDup_map_filter (A B : Type) (f : A -> B) (p : A -> bool) l :
  NoDup (map f l) -> NoDup (map f (List.filter p l)).
Proof.
  induction l as [|a l IH]; simpl; intros Hnd; [constructor|].
  inversion Hnd as [|x xs Hnot Hnd']; subst.
  destruct (p a); [|now apply IH]. simpl. constructor; [|now apply IH].
  intros Hin. apply Hnot. apply in_map_iff in Hin.
  destruct Hin as (a' & Heq & Hin). apply filter_In in Hin.
  rewrite <- Heq. apply in_map. tauto.
Qed.

Lemma delete_consistent tbl k : consistent tbl -> consistent (books.delete tbl k).
Proof.
  intros (Hlt & Hnd & Hkey). unfold books.delete.
  split; [|split]; simpl.
  - intros r Hin. apply filter_In in Hin. now apply Hlt.
  - now apply NoDup_map_filter.
  - intros r r' Hin Hin'. apply filter_In in Hin, Hin'. apply Hkey; tauto.
Qed.
End Invariant.

Section AppInvariant.
Context {collation : Collation} {validators : FieldValidators}.

(** Every request leaves a table that satisfies its constraints. *)
Lemma app_consistent req w :
  consistent (storage w) -> consistent (storage (snd (app req w))).
Proof.
  intros Hc. destruct req as [|k|body|k body|k].
  - now rewrite app_GET_books.
  - rewrite app_GET_book. now destruct (books.select_by_id (storage w) k).
  - destruct (validate body) as [errors|book] eqn:Hv.
    + now rewrite (app_invalid_POST w _ _ Hv).
    + rewrite (app_POST_books w _ _ Hv).
      destruct (books.insert (storage w) (instance_of book)) as [e|[k tbl]] eqn:E;
        [assumption|]. simpl. eapply insert_consistent; eassumption.
  - destruct (validate body) as [errors|book] eqn:Hv.
    + now rewrite (app_invalid_PUT w k _ _ Hv).
    + rewrite (app_PUT_book w k _ _ Hv).
      destruct (books.select_by_id (storage w) k); [|assumption].
      destruct (books.update (storage w) k _) as [e|tbl] eqn:E; [assumption|].
      simpl. eapply update_consistent; eassumption.
  - rewrite app_DELETE_book.
    destruct (books.select_by_id (storage w) k); [|assumption].
    simpl. now apply delete_consistent.
Qed.
End AppInvariant.

(** ** The validator *)

Section ValidatorFacts.
Context {validators : FieldValidators}.




End ValidatorFacts.


Lemma NoDup_map_In_eq (A B : Type) (f : A -> B) l a b :
  NoDup (map f l) -> In a l -> In b l -> f a = f b -> a = b.
Proof.
  induction l as [|x l IH]; simpl; intros Hnd Ha Hb Hf; [contradiction|].
  inversion Hnd as [|y ys Hnot Hnd']; subst.
  destruct Ha as [-> | Ha], Hb as [-> | Hb].
  - reflexivity.
  - exfalso. apply Hnot. rewrite Hf. now apply in_map.
  - exfalso. apply Hnot. rewrite <- Hf. now apply in_map.
  - now apply IH.
Qed.

(** In a table that satisfies its constraints two records with one isbn are
    one record. *)
Lemma isbn_is_key {collation : Collation} tbl r r' :
  consistent tbl -> In r (books.rows tbl) -> In r' (books.rows tbl) ->
  books.isbn r = books.isbn r' -> r = r'.
Proof.
  intros (_ & Hnd & Hkey) Hin Hin' Hisbn.
  apply (NoDup_map_In_eq _ _ books.id (books.rows tbl)); try assumption.
  destruct (Z.eq_dec (books.id r) (books.id r')) as [|Hne]; [assumption|].
  specialize (Hkey r r' Hin Hin' Hne).
  rewrite Hisbn, same_key_refl in Hkey. discriminate.
Qed.


Section StatementErrors.
Context {collation : Collation}.

Lemma insert_inl tbl b e :
  books.insert tbl b = inl e -> e = IntegrityError \/ e = DataError.
Proof.
  unfold books.insert.
  destruct (negb (books.fits b) || negb (books.in_integer_range _)).
  - intros H. injection H as <-. now right.
  - destruct (_ || _).
    + intros H. injection H as <-. now left.
    + discriminate.
Qed.

Lemma update_inl tbl k b e :
  books.update tbl k b = inl e -> e = IntegrityError \/ e = DataError.
Proof.
  unfold books.update. destruct (negb (books.fits b)).
  - intros H. injection H as <-. now right.
  - destruct (books.isbn_taken tbl k (Book.isbn b)).
    + intros H. injection H as <-. now left.
    + discriminate.
Qed.

Lemma update_inr_others tbl k b tbl' :
  books.update tbl k b = inr tbl' ->
  List.filter (fun r => negb (books.id r =? k)) (books.rows tbl')
  = List.filter (fun r => negb (books.id r =? k)) (books.rows tbl).
Proof.
  unfold books.update. destruct (negb (books.fits b)); [discriminate|].
  destruct (books.isbn_taken tbl k (Book.isbn b)); [discriminate|].
  intros H. injection H as <-. simpl. unfold books.has_id.
  induction (books.rows tbl) as [|r l IH]; [reflexivity|]. simpl.
  destruct (books.id r =? k) eqn:E; simpl.
  - rewrite Z.eqb_refl. simpl. exact IH.
  - rewrite E. simpl. now rewrite IH.
Qed.

Lemma delete_others tbl k :
  List.filter (fun r => negb (books.id r =? k)) (books.rows (books.delete tbl k))
  = List.filter (fun r => negb (books.id r =? k)) (books.rows tbl).
Proof.
  unfold books.delete. simpl. unfold books.has_id.
  induction (books.rows tbl) as [|r l IH]; [reflexivity|]. simpl.
  destruct (books.id r =? k) eqn:E; simpl.
  - exact IH.
  - rewrite E. simpl. now rewrite IH.
Qed.
End StatementErrors.


(** ** Decimal numerals *)

Ltac digit_value :=
  match goal with
  | |- context [digit ?c] =>
      let v := eval vm_compute in (digit c) in change (digit c) with v
  end.

Lemma read_digits_of_uint_acc d : forall acc,
  read_digits (NilEmpty.string_of_uint d) (Z.pos acc)
  = Some (Z.pos (Pos.of_uint_acc d acc)).
Proof.
  induction d as [|d IH|d IH|d IH|d IH|d IH|d IH|d IH|d IH|d IH|d IH];
    intros acc; [reflexivity|..];
    cbn [NilEmpty.string_of_uint read_digits Pos.of_uint_acc];
    digit_value; cbn beta iota; rewrite <- IH; f_equal; lia.
Qed.

Lemma read_digits_of_uint d :
  read_digits (NilEmpty.string_of_uint d) 0 = Some (Z.of_N (Pos.of_uint d)).
Proof.
  induction d as [|d IH|d IH|d IH|d IH|d IH|d IH|d IH|d IH|d IH|d IH];
    [reflexivity | exact IH |..];
    cbn [NilEmpty.string_of_uint read_digits Pos.of_uint Z.of_N];
    digit_value; cbn beta iota;
    rewrite <- read_digits_of_uint_acc; reflexivity.
Qed.

Lemma read_digits_to_uint p :
  read_digits (NilEmpty.string_of_uint (Pos.to_uint p)) 0 = Some (Z.pos p).
Proof.
  rewrite read_digits_of_uint, DecimalPos.Unsigned.of_to. reflexivity.
Qed.

(** The numeral [str] writes denotes the integer it was given. *)
Lemma read_int_str k : read_int (str k) = Some k.
Proof.
  unfold str. destruct k as [|p|p]; [reflexivity|..]; simpl Z.to_int;
    assert (H := read_digits_to_uint p);
    destruct (Pos.to_uint p) as [|d|d|d|d|d|d|d|d|d|d];
    try discriminate H;
    cbn [NilZero.string_of_int NilZero.string_of_uint NilEmpty.string_of_uint];
    cbn [NilEmpty.string_of_uint] in H;
    unfold read_int; cbn [Ascii.eqb Bool.eqb]; rewrite H; reflexivity.
Qed.




Section UnreadableFields.
Context {validators : FieldValidators}.

End UnreadableFields.


(** ** The routes *)

Section Claims.
Context {collation : Collation} {validators : FieldValidators}.

(** C1 (as amended).  Create-then-get round trip: for a table that satisfies
    its constraints and whose id counter is still within the range of the
    INTEGER column, and a valid body whose values fit the columns and whose
    isbn is held by no stored book, [POST /books] answers 200 with the five
    fields of the body and an id within the range of the column that no
    stored book had, and [GET /books/{id}] of that id then answers 200 with
    the identical object. *)
Theorem create_then_get w body book :
  validate body = inr book ->
  consistent (storage w) ->
  books.in_integer_range (books.auto_increment (storage w)) = true ->
  fits_columns book ->
  (forall r, In r (books.rows (storage w)) ->
             same_key (BookCreate.isbn book) (books.isbn r) = false) ->
  exists k w',
    app (POST_books body) w = (mkResponse 200 (json_book (out_of book k)), w')
    /\ books.in_integer_range k = true
    /\ (forall r, In r (books.rows (storage w)) -> books.id r <> k)
    /\ fst (app (GET_book k) w') = mkResponse 200 (json_book (out_of book k)).
Proof.
  intros Hv (Hlt & _ & _) Hrange Hfits Hfree.
  exists (books.auto_increment (storage w)).
  rewrite (app_POST_books w _ _ Hv).
  assert (E := insert_accepts (storage w) (instance_of book) eq_refl Hfits
                 Hrange Hlt Hfree).
  rewrite E. eexists. split; [reflexivity|]. split; [exact Hrange|]. split.
  - intros r Hin. specialize (Hlt r Hin). lia.
  - rewrite app_GET_book. simpl.
    destruct (insert_inr _ _ _ _ E) as (_ & _ & Hsel). rewrite Hsel. reflexivity.
Qed.

(** C2.  [GET /books/{book_id}] answers 200 exactly when a record with that
    id is stored, and then with the output shape of a stored record of that
    id (of the record itself where [id] is a key); it answers 404 with
    detail "Book not found" exactly when no record has that id; there is no
    third outcome, and the table is left as it was. *)
Theorem get_book_found_iff_stored w k :
  let response := fst (app (GET_book k) w) in
  ((exists row, In row (books.rows (storage w)) /\ books.id row = k)
   <-> status_code response = 200)
  /\ ((forall row, In row (books.rows (storage w)) -> books.id row <> k)
      <-> response = mkResponse 404 (json_dict [("detail", "Book not found")]))
  /\ (status_code response = 200 ->
      exists row, In row (books.rows (storage w)) /\ books.id row = k
                  /\ response = mkResponse 200 (json_book (out_of_row row)))
  /\ (forall row, NoDup (map books.id (books.rows (storage w))) ->
        In row (books.rows (storage w)) -> books.id row = k ->
        response = mkResponse 200 (json_book (out_of_row row)))
  /\ (status_code response = 200 \/ status_code response = 404)
  /\ storage (snd (app (GET_book k) w)) = storage w.
Proof.
  simpl. rewrite app_GET_book.
  destruct (books.select_by_id (storage w) k) as [row|] eqn:E; simpl.
  - destruct (select_by_id_Some _ _ _ E) as [Hin Hid].
    split; [split; [reflexivity | intros _; now exists row]|].
    split; [split; [intros H; exfalso; now apply (H row) | discriminate]|].
    split; [intros _; now exists row|].
    split; [|split; [now left | reflexivity]].
    intros row' Hnd Hin' Hid'. destruct (storage w) as [l auto]. simpl in *.
    rewrite <- Hid' in E. rewrite (select_by_id_key l row' auto Hnd Hin') in E.
    now injection E as ->.
  - rewrite select_by_id_None in E.
    split; [split; [|discriminate]|].
    { intros (row & Hin & Hid). exfalso. now apply (E row). }
    split; [split; [reflexivity | intros _; exact E]|].
    split; [discriminate|].
    split; [|split; [now right | reflexivity]].
    intros row Hnd Hin Hid. exfalso. now apply (E row).
Qed.

(** C3 (as amended).  [PUT /books/{book_id}] is a full replacement: for an
    existing id and a valid body that the table accepts (its values fit the
    columns and its isbn is held by no other book) it answers 200 with the
    five fields of the body under that id, every stored record of that id
    then holds exactly the new fields, and [GET] of the id returns the same
    object; for an id that is not stored it answers 404 and changes
    nothing. *)
Theorem update_then_get w k body book :
  validate body = inr book ->
  ((exists row, In row (books.rows (storage w)) /\ books.id row = k) ->
   fits_columns book ->
   (forall r, In r (books.rows (storage w)) -> books.id r <> k ->
              same_key (BookCreate.isbn book) (books.isbn r) = false) ->
   exists w',
     app (PUT_book k body) w = (mkResponse 200 (json_book (out_of book k)), w')
     /\ (forall r, In r (books.rows (storage w')) -> books.id r = k ->
           r = books.Row k (BookCreate.title book) (BookCreate.author book)
                 (BookCreate.published_year book) (BookCreate.genre book)
                 (BookCreate.isbn book))
     /\ fst (app (GET_book k) w') = mkResponse 200 (json_book (out_of book k)))
  /\ ((forall row, In row (books.rows (storage w)) -> books.id row <> k) ->
      app (PUT_book k body) w
      = (mkResponse 404 (json_dict [("detail", "Book not found")]),
         served w (storage w))).
Proof.
  intros Hv. rewrite (app_PUT_book w k _ _ Hv). split.
  - intros Hex Hfits Hfree.
    destruct (select_by_id_exists _ _ Hex) as [row Hsel]. rewrite Hsel.
    assert (E := update_accepts (storage w) k
                   (Book.set_id (Some k) (instance_of book)) Hfits Hfree).
    rewrite E. eexists. split; [reflexivity|]. split.
    + simpl. intros r Hin Hid. apply in_map_iff in Hin.
      destruct Hin as (r0 & <- & _).
      destruct (books.has_id k r0) eqn:Ek; [reflexivity|].
      apply has_id_false in Ek. contradiction.
    + rewrite app_GET_book. cbn [served storage].
      rewrite (update_inr _ _ _ _ _ E Hsel). reflexivity.
  - intros Hnone. apply select_by_id_None in Hnone. now rewrite Hnone.
Qed.

(** C4.  [DELETE /books/{book_id}] of an existing id answers 200 with the
    message "Book with ID n deleted" in which n is a decimal numeral that
    denotes that id, and leaves no record of that id; [GET] of the id then
    answers 404, and so does a second [DELETE], which changes nothing. *)
Theorem delete_then_not_found w k :
  (exists row, In row (books.rows (storage w)) /\ books.id row = k) ->
  exists w' numeral,
    app (DELETE_book k) w
    = (mkResponse 200
         (json_dict [("message", String.append "Book with ID "
                                   (String.append numeral " deleted"))]),
       w')
    /\ read_int numeral = Some k
    /\ (forall r, In r (books.rows (storage w')) -> books.id r <> k)
    /\ fst (app (GET_book k) w')
       = mkResponse 404 (json_dict [("detail", "Book not found")])
    /\ fst (app (DELETE_book k) w')
       = mkResponse 404 (json_dict [("detail", "Book not found")])
    /\ storage (snd (app (DELETE_book k) w')) = storage w'.
Proof.
  intros Hex. destruct (select_by_id_exists _ _ Hex) as [row Hsel].
  rewrite app_DELETE_book, Hsel.
  exists (served w (books.delete (storage w) k)), (str k).
  split; [reflexivity|]. split; [apply read_int_str|].
  assert (Hgone := select_after_delete (storage w) k).
  split; [|split; [|split]].
  - now apply select_by_id_None.
  - rewrite app_GET_book. cbn [served storage]. now rewrite Hgone.
  - rewrite app_DELETE_book. cbn [served storage]. now rewrite Hgone.
  - rewrite app_DELETE_book. cbn [served storage]. now rewrite Hgone.
Qed.


(** C5.  isbn is unique across the stored books.  In a table that satisfies
    its constraints two records with the same isbn are the same record, and
    every request leaves such a table; a [POST] whose isbn a stored book
    already has fails (500) and leaves the table as it was, and that book is
    still returned by [GET] with all its fields. *)
Theorem isbn_unique w :
  consistent (storage w) ->
  (forall r r', In r (books.rows (storage w)) ->
                In r' (books.rows (storage w)) ->
                books.isbn r = books.isbn r' -> r = r')
  /\ (forall req, consistent (storage (snd (app req w))))
  /\ (forall row body book,
        In row (books.rows (storage w)) ->
        validate body = inr book ->
        BookCreate.isbn book = books.isbn row ->
        exists w',
          app (POST_books body) w
          = (mkResponse 500 (plain_text "Internal Server Error"), w')
          /\ storage w' = storage w
          /\ fst (app (GET_book (books.id row)) w')
             = mkResponse 200 (json_book (out_of_row row))).
Proof.
  intros Hc. split; [|split].
  - intros r r'. now apply isbn_is_key.
  - intros req. now apply app_consistent.
  - intros row body book Hin Hv Hisbn.
    rewrite (app_POST_books w _ _ Hv).
    destruct Hc as (Hlt & Hnd & _).
    rewrite (insert_duplicate_isbn (storage w) (instance_of book) row eq_refl Hin)
      by (simpl; try assumption; rewrite Hisbn; apply same_key_refl).
    exists (served w (storage w)). split; [|split; [reflexivity|]].
    + destruct (books.fits (instance_of book) && _); reflexivity.
    + rewrite app_GET_book. cbn [served storage].
      destruct (storage w) as [l auto]. simpl in *.
      now rewrite (select_by_id_key l row auto Hnd Hin).
Qed.



(** C8.  The session opened for a request is closed on every exit path:
    whatever the endpoint under [get_db] does, return or raise any
    exception, exactly one session is created and it is closed exactly once,
    after the endpoint; so it is for each of the five routes and every
    outcome (success, validation failure, not found, storage error). *)
Theorem session_closed_on_every_exit :
  (forall (A : Type) (endpoint : M A) w,
     sessions (snd (get_db endpoint w))
     = sessions w ++ [session_created; session_closed])
  /\ (forall req w,
        sessions (snd (app req w))
        = sessions w ++ [session_created; session_closed]).
Proof.
  split.
  - intros A endpoint w. apply get_db_sessions.
  - intros req w. unfold app.
    assert (H := get_db_sessions content (endpoint req) w).
    destruct (get_db (endpoint req) w) as [[e|c] w']; exact H.
Qed.

(** C9.  Every write touches only its target row: a successful [POST] adds
    one record after the stored ones, which stay as they were; a successful
    [PUT] or [DELETE] of id [k] leaves the records of every other id as they
    were; a [PUT] or [DELETE] answered with 404 leaves the table as it
    was. *)
Theorem writes_touch_only_their_row w :
  (forall body,
     status_code (fst (app (POST_books body) w)) = 200 ->
     exists row,
       books.rows (storage (snd (app (POST_books body) w)))
       = books.rows (storage w) ++ [row])
  /\ (forall k body,
        status_code (fst (app (PUT_book k body) w)) = 200 ->
        List.filter (fun r => negb (books.id r =? k))
          (books.rows (storage (snd (app (PUT_book k body) w))))
        = List.filter (fun r => negb (books.id r =? k))
            (books.rows (storage w)))
  /\ (forall k,
        status_code (fst (app (DELETE_book k) w)) = 200 ->
        List.filter (fun r => negb (books.id r =? k))
          (books.rows (storage (snd (app (DELETE_book k) w))))
        = List.filter (fun r => negb (books.id r =? k))
            (books.rows (storage w)))
  /\ (forall k body,
        status_code (fst (app (PUT_book k body) w)) = 404 ->
        storage (snd (app (PUT_book k body) w)) = storage w)
  /\ (forall k,
        status_code (fst (app (DELETE_book k) w)) = 404 ->
        storage (snd (app (DELETE_book k) w)) = storage w).
Proof.
  split; [|split; [|split; [|split]]].
  - intros body. destruct (validate body) as [errors|book] eqn:Hv.
    + rewrite (app_invalid_POST w _ _ Hv). discriminate.
    + rewrite (app_POST_books w _ _ Hv).
      destruct (books.insert (storage w) (instance_of book)) as [e|[k tbl]] eqn:E.
      * destruct (insert_inl _ _ _ E) as [-> | ->]; discriminate.
      * intros _. simpl. destruct (insert_inr _ _ _ _ E) as (Hrows & _).
        eexists. exact Hrows.
  - intros k body. destruct (validate body) as [errors|book] eqn:Hv.
    + rewrite (app_invalid_PUT w k _ _ Hv). discriminate.
    + rewrite (app_PUT_book w k _ _ Hv).
      destruct (books.select_by_id (storage w) k); [|discriminate].
      destruct (books.update (storage w) k _) as [e|tbl] eqn:E.
      * destruct (update_inl _ _ _ _ E) as [-> | ->]; discriminate.
      * intros _. simpl. exact (update_inr_others _ _ _ _ E).
  - intros k. rewrite app_DELETE_book.
    destruct (books.select_by_id (storage w) k); [|discriminate].
    intros _. simpl. apply delete_others.
  - intros k body. destruct (validate body) as [errors|book] eqn:Hv.
    + rewrite (app_invalid_PUT w k _ _ Hv). discriminate.
    + rewrite (app_PUT_book w k _ _ Hv).
      destruct (books.select_by_id (storage w) k); [|reflexivity].
      destruct (books.update (storage w) k _) as [e|tbl] eqn:E.
      * destruct (update_inl _ _ _ _ E) as [-> | ->]; discriminate.
      * discriminate.
  - intros k. rewrite app_DELETE_book.
    destruct (books.select_by_id (storage w) k); [discriminate|reflexivity].
Qed.

(** C10.  [PUT /books/{book_id}] has no duplicate check of its own: when the
    body gives a stored book the isbn of another stored book, the UPDATE
    reaches the table, is rejected there (by the UNIQUE constraint when the
    values fit the columns), the error leaves the handler as it is and is
    answered with 500, not 404 or 409, and the table is as it was. *)
Theorem update_to_taken_isbn_is_server_error w k body book row other :
  validate body = inr book ->
  In row (books.rows (storage w)) -> books.id row = k ->
  In other (books.rows (storage w)) -> books.id other <> k ->
  BookCreate.isbn book = books.isbn other ->
  app (PUT_book k body) w
  = (mkResponse 500 (plain_text "Internal Server Error"), served w (storage w))
  /\ storage (snd (app (PUT_book k body) w)) = storage w
  /\ (fits_columns book ->
      fst (get_db (endpoint (PUT_book k body)) w) = inl IntegrityError).
Proof.
  intros Hv Hin Hid Hin' Hid' Hisbn.
  assert (Hsel : exists r, books.select_by_id (storage w) k = Some r)
    by (apply select_by_id_exists; now exists row).
  destruct Hsel as [r Hsel].
  assert (E := update_duplicate_isbn (storage w) k
                 (Book.set_id (Some k) (instance_of book)) other Hin' Hid').
  simpl in E. rewrite Hisbn, same_key_refl in E. specialize (E eq_refl).
  rewrite (app_PUT_book w k _ _ Hv), (run_PUT_book w k _ _ Hv), Hsel, E.
  split; [|split].
  - now destruct (books.fits _).
  - now destruct (books.fits _).
  - intros Hfits. unfold fits_columns in Hfits.
    change (books.fits (Book.set_id (Some k) (instance_of book)))
      with (books.fits (instance_of book)).
    now rewrite Hfits.
Qed.

End Claims.

(** ** Listing, and how the routes compose *)

Section Composition.
Context {collation : Collation} {validators : FieldValidators}.

Lemma update_inr_rows tbl k b tbl' :
  books.update tbl k b = inr tbl' ->
  books.fits b = true
  /\ books.isbn_taken tbl k (Book.isbn b) = false
  /\ tbl' = books.Build
              (map (fun r => if books.has_id k r then books.with_values k b else r)
                 (books.rows tbl))
              (books.auto_increment tbl).
Proof.
  unfold books.update. destruct (books.fits b); [|discriminate]. simpl.
  destruct (books.isbn_taken tbl k (Book.isbn b)); [discriminate|].
  intros H. injection H as <-. repeat split.
Qed.

Lemma insert_inr_fresh tbl b k tbl' :
  Book.id b = None ->
  books.insert tbl b = inr (k, tbl') ->
  books.fits b = true
  /\ k = books.auto_increment tbl
  /\ tbl' = books.Build (books.rows tbl ++ [books.with_values k b])
              (Z.max (books.auto_increment tbl) (k + 1)).
Proof.
  intros Hid. unfold books.insert. rewrite Hid.
  destruct (books.fits b); [|discriminate]. simpl.
  destruct (negb (books.in_integer_range _)); [discriminate|].
  destruct (_ || _); [discriminate|].
  intros H. injection H as <- <-. repeat split.
Qed.

Lemma map_out_of_row_filter k l :
  map out_of_row (List.filter (fun r => negb (books.has_id k r)) l)
  = List.filter (fun o => negb (BookOut.id o =? k)) (map out_of_row l).
Proof.
  induction l as [|r l IH]; [reflexivity|]. simpl.
  unfold books.has_id at 1. destruct (books.id r =? k); simpl; now rewrite IH.
Qed.

Lemma length_filter_key k l :
  NoDup (map books.id l) -> (exists r, In r l /\ books.id r = k) ->
  S (List.length (List.filter (fun r => negb (books.has_id k r)) l))
  = List.length l.
Proof.
  induction l as [|r l IH]; simpl; intros Hnd [r0 [Hin Hid]]; [contradiction|].
  inversion Hnd as [|x xs Hnot Hnd']; subst.
  destruct (books.has_id (books.id r0) r) eqn:E; simpl.
  - f_equal. apply has_id_true in E.
    assert (Hall : forall r', In r' l -> books.has_id (books.id r0) r' = false).
    { intros r' Hr'. apply has_id_false. intros Heq. apply Hnot.
      rewrite E, <- Heq. now apply in_map. }
    clear - Hall. induction l as [|r' l IH]; [reflexivity|]. simpl.
    rewrite (Hall r') by now left. simpl. f_equal. apply IH.
    intros r'' Hr''. apply Hall. now right.
  - f_equal. apply IH; [assumption|]. exists r0. split; [|reflexivity].
    destruct Hin as [-> | Hin]; [|assumption].
    apply has_id_false in E. now elim E.
Qed.

(** X1.  [GET /books] always answers 200 with the output shape of every
    stored record, in storage order (the empty list for an empty table), and
    leaves the table as it was. *)
Theorem get_books_lists_the_table w :
  app GET_books w = (mkResponse 200 (json_books (listing w)), served w (storage w))
  /\ List.length (listing w) = List.length (books.rows (storage w))
  /\ (books.rows (storage w) = [] ->
      fst (app GET_books w) = mkResponse 200 (json_books [])).
Proof.
  rewrite app_GET_books. unfold listing. split; [reflexivity|].
  split; [apply length_map|]. intros ->. reflexivity.
Qed.

(** X2.  What is listed is what can be fetched: an object that
    [GET /books/{id}] returns is in the listing of [GET /books], and where
    the table satisfies its constraints every listed object is returned by
    [GET] of its id. *)
Theorem listed_iff_fetched w out :
  (fst (app (GET_book (BookOut.id out)) w) = mkResponse 200 (json_book out) ->
   In out (listing w))
  /\ (consistent (storage w) -> In out (listing w) ->
      fst (app (GET_book (BookOut.id out)) w) = mkResponse 200 (json_book out)).
Proof.
  rewrite app_GET_book. unfold listing. split.
  - destruct (books.select_by_id (storage w) (BookOut.id out)) as [row|] eqn:E;
      simpl; [|discriminate].
    intros H. injection H as <-. apply in_map.
    now destruct (select_by_id_Some _ _ _ E).
  - intros (_ & Hnd & _) Hin. apply in_map_iff in Hin.
    destruct Hin as (row & <- & Hin). simpl.
    destruct (storage w) as [l auto]. simpl in *.
    now rewrite (select_by_id_key l row auto Hnd Hin).
Qed.

(** X3.  After a [POST /books] answered with 200, [GET /books] returns the
    former listing followed by the object the [POST] returned. *)
Theorem listing_after_create w body out :
  fst (app (POST_books body) w) = mkResponse 200 (json_book out) ->
  fst (app GET_books (snd (app (POST_books body) w)))
  = mkResponse 200 (json_books (listing w ++ [out])).
Proof.
  destruct (validate body) as [errors|book] eqn:Hv.
  - rewrite (app_invalid_POST w _ _ Hv). discriminate.
  - rewrite (app_POST_books w _ _ Hv).
    destruct (books.insert (storage w) (instance_of book)) as [e|[k tbl]] eqn:E.
    + destruct (insert_inl _ _ _ E) as [-> | ->]; discriminate.
    + simpl. intros H. injection H as <-. rewrite app_GET_books. simpl.
      destruct (insert_inr _ _ _ _ E) as (Hrows & _).
      rewrite Hrows, map_app. reflexivity.
Qed.

(** X4.  After a [DELETE /books/{book_id}] answered with 200, [GET /books]
    returns the former listing without the objects of that id; where the
    table satisfies its constraints that is exactly one record less. *)
Theorem listing_after_delete w k :
  status_code (fst (app (DELETE_book k) w)) = 200 ->
  fst (app GET_books (snd (app (DELETE_book k) w)))
  = mkResponse 200
      (json_books (List.filter (fun o => negb (BookOut.id o =? k)) (listing w)))
  /\ (consistent (storage w) ->
      S (List.length (listing (snd (app (DELETE_book k) w))))
      = List.length (listing w)).
Proof.
  rewrite app_DELETE_book.
  destruct (books.select_by_id (storage w) k) as [row|] eqn:E; [|discriminate].
  intros _. rewrite app_GET_books. unfold listing. simpl. split.
  - now rewrite map_out_of_row_filter.
  - intros (_ & Hnd & _). rewrite !length_map. apply length_filter_key;
      [assumption|]. exists row. now apply select_by_id_Some.
Qed.

Lemma isbn_taken_after_update tbl k b s :
  books.isbn_taken
    (books.Build
       (map (fun r => if books.has_id k r then books.with_values k b else r)
          (books.rows tbl))
       (books.auto_increment tbl)) k s
  = books.isbn_taken tbl k s.
Proof.
  unfold books.isbn_taken. simpl.
  induction (books.rows tbl) as [|r l IH]; [reflexivity|]. simpl.
  rewrite IH. f_equal. destruct (books.has_id k r) eqn:E.
  - now rewrite (proj2 (has_id_true k (books.with_values k b))).
  - now rewrite E.
Qed.

Lemma update_rows_twice k b l :
  map (fun r => if books.has_id k r then books.with_values k b else r)
    (map (fun r => if books.has_id k r then books.with_values k b else r) l)
  = map (fun r => if books.has_id k r then books.with_values k b else r) l.
Proof.
  rewrite map_map. apply map_ext. intros r.
  destruct (books.has_id k r) eqn:E.
  - now rewrite (proj2 (has_id_true k (books.with_values k b))).
  - now rewrite E.
Qed.

(** X5.  [PUT /books/{book_id}] never changes which ids are stored: whatever
    its outcome, the ids of the stored records, their number and their order
    are as before. *)
Theorem update_keeps_the_ids w k body :
  map books.id (books.rows (storage (snd (app (PUT_book k body) w))))
  = map books.id (books.rows (storage w)).
Proof.
  destruct (validate body) as [errors|book] eqn:Hv.
  - now rewrite (app_invalid_PUT w k _ _ Hv).
  - rewrite (app_PUT_book w k _ _ Hv).
    destruct (books.select_by_id (storage w) k); [|reflexivity].
    destruct (books.update (storage w) k _) as [e|tbl] eqn:E; [reflexivity|].
    destruct (update_inr_rows _ _ _ _ E) as (_ & _ & ->). simpl.
    apply update_rows_id.
Qed.

(** X6.  [PUT /books/{book_id}] is idempotent: when it is answered with 200,
    the same request again is answered with the same response and leaves
    the table as the first one left it. *)
Theorem update_is_idempotent w k body :
  status_code (fst (app (PUT_book k body) w)) = 200 ->
  fst (app (PUT_book k body) (snd (app (PUT_book k body) w)))
  = fst (app (PUT_book k body) w)
  /\ storage (snd (app (PUT_book k body) (snd (app (PUT_book k body) w))))
     = storage (snd (app (PUT_book k body) w)).
Proof.
  destruct (validate body) as [errors|book] eqn:Hv.
  - rewrite (app_invalid_PUT w k _ _ Hv). discriminate.
  - rewrite (app_PUT_book w k _ _ Hv).
    destruct (books.select_by_id (storage w) k) as [row|] eqn:Hsel;
      [|discriminate].
    destruct (books.update (storage w) k _) as [e|tbl] eqn:E.
    + destruct (update_inl _ _ _ _ E) as [-> | ->]; discriminate.
    + intros _. cbn [fst snd]. rewrite (app_PUT_book _ k _ _ Hv).
      cbn [served storage].
      rewrite (update_inr _ _ _ _ _ E Hsel).
      destruct (update_inr_rows _ _ _ _ E) as (Hfits & Htaken & ->).
      unfold books.update. rewrite Hfits, isbn_taken_after_update, Htaken.
      simpl. rewrite update_rows_twice. now split.
Qed.

(** X7.  [POST /books] is not idempotent: when it is answered with 200, the
    same request again is answered with 500 and stores nothing more. *)
Theorem create_twice_fails w body :
  status_code (fst (app (POST_books body) w)) = 200 ->
  app (POST_books body) (snd (app (POST_books body) w))
  = (mkResponse 500 (plain_text "Internal Server Error"),
     served (snd (app (POST_books body) w))
       (storage (snd (app (POST_books body) w)))).
Proof.
  destruct (validate body) as [errors|book] eqn:Hv.
  - rewrite (app_invalid_POST w _ _ Hv). discriminate.
  - rewrite (app_POST_books w _ _ Hv).
    destruct (books.insert (storage w) (instance_of book)) as [e|[k tbl]] eqn:E.
    + destruct (insert_inl _ _ _ E) as [-> | ->]; discriminate.
    + intros _. cbn [snd]. rewrite (app_POST_books _ _ _ Hv).
      cbn [served storage].
      destruct (insert_inr_fresh (storage w) (instance_of book) k tbl eq_refl E)
        as (Hfits & -> & ->).
      unfold books.insert at 1. simpl Book.id. rewrite Hfits. cbn [negb].
      rewrite (isbn_taken_true _ _ _
                 (books.with_values (books.auto_increment (storage w))
                    (instance_of book)));
        [rewrite orb_true_r;
         destruct (negb (books.in_integer_range _)); reflexivity | | | ].
      * simpl. apply in_or_app. right. now left.
      * simpl. lia.
      * simpl. apply same_key_refl.
Qed.



Lemma member_other name key v before after :
  key <> name ->
  member name (before ++ (key, v) :: after) = member name (before ++ after).
Proof.
  intros Hne. induction before as [|[k' v'] before IH]; simpl.
  - destruct (member name after); [reflexivity|].
    now rewrite (proj2 (String.eqb_neq key name) Hne).
  - now rewrite IH.
Qed.

(** X9.  A member of the body that is not one of the five declared fields
    is ignored, wherever it stands: the body is validated, and the request
    answered, as without it.  In particular an "id" sent in the body has no
    effect on the id that [POST] assigns or that [PUT] updates. *)
Theorem undeclared_members_are_ignored w key v before after :
  ~ In key required_fields ->
  validate (JObject (before ++ (key, v) :: after))
  = validate (JObject (before ++ after))
  /\ app (POST_books (JObject (before ++ (key, v) :: after))) w
     = app (POST_books (JObject (before ++ after))) w
  /\ (forall k,
        app (PUT_book k (JObject (before ++ (key, v) :: after))) w
        = app (PUT_book k (JObject (before ++ after))) w).
Proof.
  intros Hkey.
  assert (Hv : validate (JObject (before ++ (key, v) :: after))
               = validate (JObject (before ++ after))).
  { unfold validate, field.
    rewrite !(member_other _ key v before after);
      try (intros ->; apply Hkey; simpl; tauto).
    reflexivity. }
  split; [exact Hv|]. split; [|intros k].
  - unfold app, endpoint, parse. now rewrite Hv.
  - unfold app, endpoint, parse. now rewrite Hv.
Qed.

(** X10.  A book can be updated while it keeps its isbn: where the table
    satisfies its constraints, a [PUT] to a stored id with a valid body
    whose values fit the columns and whose isbn is the one that record
    already has is answered with 200 and the new fields. *)
Theorem update_keeping_the_isbn w row body book :
  consistent (storage w) ->
  In row (books.rows (storage w)) ->
  validate body = inr book ->
  fits_columns book ->
  BookCreate.isbn book = books.isbn row ->
  fst (app (PUT_book (books.id row) body) w)
  = mkResponse 200 (json_book (out_of book (books.id row))).
Proof.
  intros (_ & Hnd & Hkey) Hin Hv Hfits Hisbn.
  rewrite (app_PUT_book w _ _ _ Hv).
  assert (Hsel : books.select_by_id (storage w) (books.id row) = Some row).
  { destruct (storage w) as [l auto]. simpl in *.
    now apply select_by_id_key. }
  rewrite Hsel.
  rewrite (update_accepts (storage w) (books.id row)
             (Book.set_id (Some (books.id row)) (instance_of book)) Hfits);
    [reflexivity|].
  intros r Hr Hne. simpl. rewrite Hisbn. apply Hkey; congruence.
Qed.

(** X11.  Deleting a book frees its isbn: where the table satisfies its
    constraints and its id counter is within the range of the INTEGER
    column, after [DELETE] of a stored book a [POST] with a valid body that
    fits the columns and carries the isbn of the deleted book is answered
    with 200. *)
Theorem isbn_is_free_after_delete w row body book :
  consistent (storage w) ->
  books.in_integer_range (books.auto_increment (storage w)) = true ->
  In row (books.rows (storage w)) ->
  validate body = inr book ->
  fits_columns book ->
  BookCreate.isbn book = books.isbn row ->
  exists k,
    fst (app (POST_books body) (snd (app (DELETE_book (books.id row)) w)))
    = mkResponse 200 (json_book (out_of book k)).
Proof.
  intros Hc Hrange Hin Hv Hfits Hisbn.
  assert (Hc' := delete_consistent (storage w) (books.id row) Hc).
  destruct Hc as (_ & Hnd & Hkey). destruct Hc' as (Hlt' & _ & _).
  rewrite app_DELETE_book.
  assert (Hsel : books.select_by_id (storage w) (books.id row) = Some row).
  { destruct (storage w) as [l auto]. simpl in *.
    now apply select_by_id_key. }
  rewrite Hsel. cbn [snd]. rewrite (app_POST_books _ _ _ Hv).
  cbn [served storage].
  rewrite (insert_accepts (books.delete (storage w) (books.id row))
             (instance_of book) eq_refl Hfits Hrange Hlt').
  - eexists. reflexivity.
  - intros r Hr. simpl in Hr. apply filter_In in Hr. destruct Hr as [Hr Hid].
    simpl. rewrite Hisbn. apply Hkey; try assumption.
    intros Heq. symmetry in Heq. apply has_id_true in Heq.
    now rewrite Heq in Hid.
Qed.


(** X13.  Started on an empty table, the service keeps one record per id
    and one record per isbn whatever requests it serves: in every listing
    the ids are pairwise distinct and two objects with one isbn are the
    same object. *)
Theorem one_record_per_id_and_isbn reqs w :
  storage w = books.empty ->
  NoDup (map BookOut.id (listing (serve_all reqs w)))
  /\ (forall o o', In o (listing (serve_all reqs w)) ->
                   In o' (listing (serve_all reqs w)) ->
                   BookOut.isbn o = BookOut.isbn o' -> o = o').
Proof.
  intros Hempty.
  assert (Hc : consistent (storage (serve_all reqs w))).
  { assert (H0 : consistent (storage w))
      by (rewrite Hempty; apply empty_consistent).
    clear Hempty. revert w H0. induction reqs as [|req reqs IH]; intros w H0;
      [exact H0|].
    simpl. apply IH. now apply app_consistent. }
  unfold listing. split.
  - rewrite map_map. simpl. now destruct Hc as (_ & Hnd & _).
  - intros o o' Hin Hin' Hisbn. apply in_map_iff in Hin, Hin'.
    destruct Hin as (r & <- & Hr), Hin' as (r' & <- & Hr').
    f_equal. now apply (isbn_is_key _ r r' Hc).
Qed.
End Composition.


(** ** The statements at work on sample data *)

#[local] Existing Instance binary_collation.
#[local] Existing Instance lax_validators.

Ltac sample_rows :=
  repeat match goal with
         | H : In _ _ |- _ => simpl in H
         | H : _ = _ \/ _ |- _ => destruct H as [<- | H]
         | H : False |- _ => destruct H
         end.

Ltac sample_consistent :=
  split; [|split]; simpl;
  [ intros r Hr; sample_rows; reflexivity
  | repeat constructor; simpl; intuition discriminate
  | intros r r' Hr Hr' Hne; sample_rows;
    first [reflexivity | now elim Hne] ].

Lemma world_A_consistent : consistent (storage world_A).
Proof. sample_consistent. Defined.

Lemma world_AC_consistent : consistent (storage world_AC).
Proof. sample_consistent. Defined.

(** C1, at book C created next to book A. *)
Lemma create_then_get_witness :
  validate body_C = inr book_C
  /\ fits_columns book_C
  /\ exists k w',
       app (POST_books body_C) world_A
       = (mkResponse 200 (json_book (out_of book_C k)), w')
       /\ books.in_integer_range k = true
       /\ (forall r, In r (books.rows (storage world_A)) -> books.id r <> k)
       /\ fst (app (GET_book k) w')
          = mkResponse 200 (json_book (out_of book_C k)).
Proof.
  split; [reflexivity|]. split; [reflexivity|].
  apply (create_then_get world_A body_C book_C);
    [reflexivity | exact world_A_consistent | reflexivity | reflexivity |].
  intros r Hr. simpl in Hr. sample_rows. reflexivity.
Defined.

(** C1 as first stated fails where the isbn is already stored: the body of
    book A is valid, and posting it next to book A is answered with 500. *)
Lemma create_fails_on_stored_isbn :
  validate body_A = inr book_A
  /\ fits_columns book_A
  /\ app (POST_books body_A) world_A
     = (mkResponse 500 (plain_text "Internal Server Error"),
        mkWorld (books.Build [row_A] 2) [session_created; session_closed]).
Proof. repeat split. Qed.

(** With the id counter exhausted a [POST] stores nothing, whatever its
    body. *)
Example create_fails_on_exhausted_counter :
  app (POST_books body_C) world_max
  = (mkResponse 500 (plain_text "Internal Server Error"),
     served world_max (storage world_max)).
Proof. reflexivity. Qed.

(** C2, at the table with books A and C: id 2 is found, id 7 is not. *)
Lemma get_book_found_iff_stored_witness :
  fst (app (GET_book 2) world_AC) = mkResponse 200 (json_book (out_of_row row_C))
  /\ fst (app (GET_book 7) world_AC)
     = mkResponse 404 (json_dict [("detail", "Book not found")]).
Proof.
  destruct (get_book_found_iff_stored world_AC 2) as (_ & _ & _ & Hfound & _).
  destruct (get_book_found_iff_stored world_AC 7) as (_ & Habsent & _).
  split.
  - apply (Hfound row_C); [| simpl; auto | reflexivity].
    repeat constructor; simpl; intuition discriminate.
  - apply Habsent. intros row Hr. sample_rows; discriminate.
Defined.

(** C3, at book A replaced by its second edition, and at an id that is not
    stored. *)
Lemma update_then_get_witness :
  validate body_A2 = inr book_A2
  /\ (exists w',
        app (PUT_book 1 body_A2) world_AC
        = (mkResponse 200 (json_book (out_of book_A2 1)), w')
        /\ (forall r, In r (books.rows (storage w')) -> books.id r = 1 ->
              r = books.Row 1 "A2" "B" 2001 "Fiction" "1111111111111")
        /\ fst (app (GET_book 1) w')
           = mkResponse 200 (json_book (out_of book_A2 1)))
  /\ app (PUT_book 7 body_A2) world_AC
     = (mkResponse 404 (json_dict [("detail", "Book not found")]),
        served world_AC (storage world_AC)).
Proof.
  destruct (@update_then_get binary_collation lax_validators
              world_AC 1 body_A2 book_A2 eq_refl) as [Hfound _].
  destruct (@update_then_get binary_collation lax_validators
              world_AC 7 body_A2 book_A2 eq_refl) as [_ Habsent].
  split; [reflexivity|]. split.
  - apply Hfound; [exists row_A; simpl; auto | reflexivity |].
    intros r Hr Hid. sample_rows; [now elim Hid | reflexivity].
  - apply Habsent. intros row Hr. sample_rows; discriminate.
Defined.

(** C3 as first stated fails where the new isbn belongs to another book: id 1
    is stored and the body is valid, yet the answer is 500 and book A is as
    it was. *)
Lemma update_fails_on_taken_isbn :
  validate body_A_isbn_C
  = inr (BookCreate.Build "A" "B" 2000 "Fiction" "2222222222222")
  /\ books.select_by_id (storage world_AC) 1 = Some row_A
  /\ app (PUT_book 1 body_A_isbn_C) world_AC
     = (mkResponse 500 (plain_text "Internal Server Error"),
        mkWorld (books.Build [row_A; row_C] 3) [session_created; session_closed]).
Proof. repeat split. Qed.

(** C4, at book A deleted from the table with books A and C. *)
Lemma delete_then_not_found_witness :
  exists w' numeral,
    app (DELETE_book 1) world_AC
    = (mkResponse 200
         (json_dict [("message", String.append "Book with ID "
                                   (String.append numeral " deleted"))]),
       w')
    /\ read_int numeral = Some 1
    /\ (forall r, In r (books.rows (storage w')) -> books.id r <> 1)
    /\ fst (app (GET_book 1) w')
       = mkResponse 404 (json_dict [("detail", "Book not found")])
    /\ fst (app (DELETE_book 1) w')
       = mkResponse 404 (json_dict [("detail", "Book not found")])
    /\ storage (snd (app (DELETE_book 1) w')) = storage w'.
Proof.
  apply (delete_then_not_found world_AC 1). exists row_A. simpl. auto.
Defined.

(** The message for an id of several digits. *)
Example delete_message_of_120 :
  fst (app (DELETE_book 120) world_120)
  = mkResponse 200 (json_dict [("message", "Book with ID 120 deleted")]).
Proof. reflexivity. Qed.

(** C5, at the table with book A and a second [POST] of its isbn. *)
Lemma isbn_unique_witness :
  (forall req, consistent (storage (snd (app req world_A))))
  /\ exists w',
       app (POST_books body_A) world_A
       = (mkResponse 500 (plain_text "Internal Server Error"), w')
       /\ storage w' = storage world_A
       /\ fst (app (GET_book 1) w') = mkResponse 200 (json_book (out_of_row row_A)).
Proof.
  destruct (isbn_unique world_A world_A_consistent) as (_ & Hinv & Hdup).
  split; [exact Hinv|].
  apply (Hdup row_A body_A book_A); [simpl; auto | reflexivity | reflexivity].
Defined.






(** C9, at the table with books A and C. *)
Lemma writes_touch_only_their_row_witness :
  (exists row,
     books.rows (storage (snd (app (POST_books body_C) world_A)))
     = books.rows (storage world_A) ++ [row])
  /\ List.filter (fun r => negb (books.id r =? 1))
       (books.rows (storage (snd (app (PUT_book 1 body_A2) world_AC))))
     = [row_C]
  /\ List.filter (fun r => negb (books.id r =? 1))
       (books.rows (storage (snd (app (DELETE_book 1) world_AC))))
     = [row_C]
  /\ storage (snd (app (PUT_book 7 body_A2) world_AC)) = storage world_AC
  /\ storage (snd (app (DELETE_book 7) world_AC)) = storage world_AC.
Proof.
  destruct (writes_touch_only_their_row world_A) as (Hpost & _).
  destruct (writes_touch_only_their_row world_AC)
    as (_ & Hput & Hdelete & Hput404 & Hdelete404).
  split; [|split; [|split; [|split]]].
  - apply Hpost. reflexivity.
  - apply (Hput 1 body_A2). reflexivity.
  - apply (Hdelete 1). reflexivity.
  - apply Hput404. reflexivity.
  - apply Hdelete404. reflexivity.
Defined.

(** C10, at book A given the isbn of book C. *)
Lemma update_to_taken_isbn_is_server_error_witness :
  app (PUT_book 1 body_A_isbn_C) world_AC
  = (mkResponse 500 (plain_text "Internal Server Error"),
     served world_AC (storage world_AC))
  /\ storage (snd (app (PUT_book 1 body_A_isbn_C) world_AC)) = storage world_AC
  /\ fst (get_db (endpoint (PUT_book 1 body_A_isbn_C)) world_AC)
     = inl IntegrityError.
Proof.
  destruct (@update_to_taken_isbn_is_server_error binary_collation
              lax_validators world_AC 1 body_A_isbn_C
              (BookCreate.Build "A" "B" 2000 "Fiction" "2222222222222")
              row_A row_C)
    as (Hresponse & Hstorage & Herror);
    [reflexivity | simpl; auto | reflexivity | simpl; auto | discriminate
    | reflexivity |].
  split; [exact Hresponse|]. split; [exact Hstorage|].
  apply Herror. reflexivity.
Defined.

(** X1, at the table with books A and C and at the empty table. *)
Lemma get_books_lists_the_table_witness :
  fst (app GET_books world_AC)
  = mkResponse 200 (json_books [out_of_row row_A; out_of_row row_C])
  /\ fst (app GET_books world_empty) = mkResponse 200 (json_books []).
Proof.
  destruct (get_books_lists_the_table world_AC) as (Hlist & _).
  destruct (get_books_lists_the_table world_empty) as (_ & _ & Hempty).
  split; [now rewrite Hlist | now apply Hempty].
Defined.

(** X2, at book C in the table with books A and C. *)
Lemma listed_iff_fetched_witness :
  In (out_of_row row_C) (listing world_AC)
  /\ fst (app (GET_book 2) world_AC) = mkResponse 200 (json_book (out_of_row row_C)).
Proof.
  destruct (listed_iff_fetched world_AC (out_of_row row_C)) as [Hfetched Hlisted].
  split.
  - apply Hfetched. reflexivity.
  - apply Hlisted; [exact world_AC_consistent | simpl; auto].
Defined.

(** X3, at book C created next to book A. *)
Lemma listing_after_create_witness :
  fst (app GET_books (snd (app (POST_books body_C) world_A)))
  = mkResponse 200 (json_books [out_of_row row_A; out_of_row row_C]).
Proof.
  apply (listing_after_create world_A body_C (out_of_row row_C)). reflexivity.
Defined.

(** X4, at book A deleted from the table with books A and C. *)
Lemma listing_after_delete_witness :
  fst (app GET_books (snd (app (DELETE_book 1) world_AC)))
  = mkResponse 200 (json_books [out_of_row row_C])
  /\ S (List.length (listing (snd (app (DELETE_book 1) world_AC))))
     = List.length (listing world_AC).
Proof.
  destruct (listing_after_delete world_AC 1 eq_refl) as [Hlist Hlength].
  split; [exact Hlist | exact (Hlength world_AC_consistent)].
Defined.

(** X6, at book A replaced twice by its second edition. *)
Lemma update_is_idempotent_witness :
  fst (app (PUT_book 1 body_A2) (snd (app (PUT_book 1 body_A2) world_AC)))
  = mkResponse 200 (json_book (out_of book_A2 1))
  /\ storage (snd (app (PUT_book 1 body_A2)
                     (snd (app (PUT_book 1 body_A2) world_AC))))
     = storage (snd (app (PUT_book 1 body_A2) world_AC)).
Proof.
  exact (@update_is_idempotent binary_collation lax_validators
           world_AC 1 body_A2 eq_refl).
Defined.

(** X7, at book C posted twice next to book A. *)
Lemma create_twice_fails_witness :
  fst (app (POST_books body_C) (snd (app (POST_books body_C) world_A)))
  = mkResponse 500 (plain_text "Internal Server Error")
  /\ storage (snd (app (POST_books body_C) (snd (app (POST_books body_C) world_A))))
     = books.Build [row_A; row_C] 3.
Proof.
  rewrite (@create_twice_fails binary_collation lax_validators
             world_A body_C eq_refl).
  split; reflexivity.
Defined.

(** X9, at the body of book C with an "id" member in front. *)
Lemma undeclared_members_are_ignored_witness :
  app (POST_books
         (JObject [("id", JInt 99); ("title", JString "C"); ("author", JString "D");
                   ("published_year", JInt 1999); ("genre", JString "Essay");
                   ("isbn", JString "2222222222222")])) world_A
  = app (POST_books body_C) world_A.
Proof.
  refine (proj1 (proj2 (@undeclared_members_are_ignored binary_collation
                          lax_validators world_A "id" (JInt 99) [] _ _))).
  simpl. intuition discriminate.
Defined.

(** X10, at book A replaced by its second edition, which keeps the isbn. *)
Lemma update_keeping_the_isbn_witness :
  fst (app (PUT_book 1 body_A2) world_AC)
  = mkResponse 200 (json_book (out_of book_A2 1)).
Proof.
  apply (@update_keeping_the_isbn binary_collation lax_validators
           world_AC row_A body_A2 book_A2);
    [exact world_AC_consistent | simpl; auto | reflexivity | reflexivity
    | reflexivity].
Defined.

(** X11, at book A deleted and posted again. *)
Lemma isbn_is_free_after_delete_witness :
  exists k,
    fst (app (POST_books body_A) (snd (app (DELETE_book 1) world_AC)))
    = mkResponse 200 (json_book (out_of book_A k)).
Proof.
  apply (@isbn_is_free_after_delete binary_collation lax_validators
           world_AC row_A body_A book_A);
    [exact world_AC_consistent | reflexivity | simpl; auto | reflexivity
    | reflexivity | reflexivity].
Defined.

(** X13, at the empty table after a create, a rejected create and an
    update. *)
Lemma one_record_per_id_and_isbn_witness :
  NoDup (map BookOut.id
           (listing (serve_all [POST_books body_A; POST_books body_A;
                                PUT_book 1 body_A2] world_empty))).
Proof.
  apply (@one_record_per_id_and_isbn binary_collation lax_validators
           [POST_books body_A; POST_books body_A; PUT_book 1 body_A2]
           world_empty eq_refl).
Defined.
